(** * The visual regression comparator of ValidateMe

    A shallow embedding of [src/core/VisualRegression.js] (class
    [VisualRegressionTester]) and the properties of its comparison loop,
    its report rows and its clean-up of old diff images.

    Conventions of the embedding:
    - a JavaScript number is [NaN], an infinity or [JS.Num q], the number
      whose value is the rational [q] (negative zero is not represented).
      Comparisons, [toFixed] and the difference of two times in
      milliseconds are exact on such values; the quotient and the product
      of [compareImages] are written without the rounding of doubles, and
      they stand behind a call that always throws;
    - the file system is a finite map from path strings to entries; an
      asynchronous method is a function from the world to a result (a
      value or a thrown exception) and the world after it;
    - Node's [path] module and the pixel comparison performed inside the
      [pixelmatch] package are parameters of the development; the check of
      buffer sizes that [pixelmatch] makes before it compares is written
      out;
    - [console.log] and [console.error] output is not part of the model;
    - the identifier [fs] of the file is the default export of
      [fs/promises], which has [access], [copyFile], [readdir], [stat],
      [unlink] and [writeFile] but neither [createReadStream] nor
      [createWriteStream]: the two calls of [loadPNG] and [savePNG] throw a
      [TypeError] inside the promise executor, and the promise is rejected
      with it;
    - a directory lists the files that lie directly in it, in the order of
      their names. Directories are not entries of the world: a statement
      about what a listing holds assumes, with [flat], that the paths of
      the world are normalised and that nothing lies deeper below the
      directory. *)

From Stdlib Require Import ZArith QArith Qround Qabs String Ascii List Lia Lqa.
From stdpp Require Import gmap strings list fin_maps pretty sorting.

Local Open Scope string_scope.

(** ** JavaScript numbers *)

Module JS.

Inductive number :=
| NaN
| Inf (negative : bool)
| Num (q : Q).

Definition of_Z (z : Z) : number := Num (inject_Z z).
Definition of_N (n : N) : number := of_Z (Z.of_N n).

Definition Qltb (a b : Q) : bool :=
  (Qnum a * Z.pos (Qden b) <? Qnum b * Z.pos (Qden a))%Z.

Definition is_zero (q : Q) : bool := (Qnum q =? 0)%Z.

(** [a / b] *)
Definition div (a b : number) : number :=
  match a, b with
  | NaN, _ | _, NaN => NaN
  | Inf _, Inf _ => NaN
  | Inf s, Num q => Inf (xorb s (Qltb q 0))
  | Num _, Inf _ => Num 0
  | Num p, Num q =>
      if is_zero q then
        if is_zero p then NaN else Inf (Qltb p 0)
      else Num (Qred (p / q))
  end.

(** [a * b] *)
Definition mul (a b : number) : number :=
  match a, b with
  | NaN, _ | _, NaN => NaN
  | Inf s, Inf s' => Inf (xorb s s')
  | Inf s, Num q | Num q, Inf s =>
      if is_zero q then NaN else Inf (xorb s (Qltb q 0))
  | Num p, Num q => Num (Qred (p * q))
  end.

(** [a - b] on two integers, as [now - stats.mtime.getTime()] is *)
Definition sub_Z (a b : Z) : number := of_Z (a - b).

(** [a < b] *)
Definition lt (a b : number) : bool :=
  match a, b with
  | NaN, _ | _, NaN => false
  | Inf s, Inf s' => s && negb s'
  | Inf s, Num _ => s
  | Num _, Inf s => negb s
  | Num p, Num q => Qltb p q
  end.

(** [a > b] *)
Definition gt (a b : number) : bool := lt b a.

(** ToBoolean on a number: [0] and [NaN] are falsy *)
Definition truthy (a : number) : bool :=
  match a with
  | NaN => false
  | Inf _ => true
  | Num q => negb (is_zero q)
  end.

Definition digit (d : N) : string := pretty (d mod 10)%N.

(** the [f] low decimal digits of [n], most significant first *)
Fixpoint fraction_digits (f : nat) (n : N) : string :=
  match f with
  | O => ""
  | S f' => digit (n / 10 ^ N.of_nat f')%N ++ fraction_digits f' n
  end.

Section ToFixed.

(** Number::toString, which [toFixed] falls back on from 1e21 upwards,
    is not modelled *)
Variable toString : Q → string.

(** Number.prototype.toFixed with [f] fraction digits. [n] is the integer
    for which [n / 10^f] is closest to the number, the larger one on a tie;
    its digits are printed with a point before the last [f] of them, here
    as the quotient and the [f] digits of the remainder by [10^f]. *)
Definition toFixed (f : nat) (x : number) : string :=
  match x with
  | NaN => "NaN"
  | Inf false => "Infinity"
  | Inf true => "-Infinity"
  | Num q =>
      if Qltb (Qabs q) (10 ^ 21) then
        let n := Z.to_N (Qfloor (Qabs q * 10 ^ Z.of_nat f + (1 # 2))) in
        let s := if Qltb q 0 then "-" else "" in
        let m := pretty (n / 10 ^ N.of_nat f)%N in
        match f with
        | O => s ++ m
        | S _ => s ++ m ++ "." ++ fraction_digits f n
        end
      else toString q
  end.

End ToFixed.

End JS.

Arguments JS.div : simpl never.
Arguments JS.mul : simpl never.
Arguments JS.lt : simpl never.
Arguments JS.gt : simpl never.
Arguments JS.of_N : simpl never.
Arguments JS.of_Z : simpl never.
Arguments JS.toFixed : simpl never.

(** ** JavaScript strings *)

Module JSString.

Fixpoint take (n : nat) (s : string) : string :=
  match n, s with
  | S n', String c s' => String c (take n' s')
  | _, _ => EmptyString
  end.

Fixpoint drop (n : nat) (s : string) : string :=
  match n, s with
  | S n', String _ s' => drop n' s'
  | _, _ => s
  end.

(** [s.slice(0, -k)]: [s] without its last [k] characters *)
Definition slice_0_minus (k : nat) (s : string) : string :=
  take (String.length s - k) s.

(** [s.endsWith(suffix)]: the characters of [s] from
    [s.length - suffix.length] on are those of [suffix] *)
Definition endsWith (s suffix : string) : bool :=
  (String.length suffix <=? String.length s)%nat &&
  String.eqb (drop (String.length s - String.length suffix) s) suffix.

(** [s.replace(/[:.]/g, '-')] *)
Fixpoint replace_colon_dot (s : string) : string :=
  match s with
  | EmptyString => EmptyString
  | String c s' =>
      String (if Ascii.eqb c ":" || Ascii.eqb c "." then "-"%char else c)
             (replace_colon_dot s')
  end.

End JSString.

(** ** Exceptions *)

Inductive errno := ENOENT | EACCES | EISDIR | ENOTDIR | EIO.

Definition errno_text (c : errno) : string :=
  match c with
  | ENOENT => "ENOENT: no such file or directory"
  | EACCES => "EACCES: permission denied"
  | EISDIR => "EISDIR: illegal operation on a directory"
  | ENOTDIR => "ENOTDIR: not a directory"
  | EIO => "EIO: i/o error"
  end.

(** A thrown value: an [Error] object with its [message] and, for the
    errors of the file system, its [code]. *)
Record exn := { code : option errno; message : string }.

Definition Error (msg : string) : exn := {| code := None; message := msg |}.

(** calling a property that is not a function *)
Definition TypeError (callee : string) : exn :=
  Error (callee ++ " is not a function").

Definition SystemError (c : errno) (syscall path : string) : exn :=
  {| code := Some c;
     message := errno_text c ++ ", " ++ syscall ++ " '" ++ path ++ "'" |}.

(** ** The world: files and the clock *)

(** A decoded PNG as [pngjs] presents it: [data] holds four bytes (RGBA)
    per pixel. *)
Record image := { width : N; height : N; data : list Byte.byte }.

Inductive content :=
| Png (img : image)          (* a well-formed PNG file and what it decodes to *)
| Raw (bytes : list Byte.byte). (* anything else *)

Record file := { body : content; mtime : Z }.

(** A path either holds a regular file or is one on which every operation
    fails with the given code (no permission, a directory in the way, a
    failing device). A path that is not in the map does not exist. *)
Inductive entry :=
| Regular (f : file)
| Failing (c : errno).

Record world := { files : gmap string entry; clock : Z }.

Definition set_files (m : gmap string entry) (w : world) : world :=
  {| files := m; clock := clock w |}.

(** ** Asynchronous methods: state and exceptions *)

Definition M (A : Type) : Type := world → (exn + A) * world.

#[global] Instance M_ret : MRet M := λ A x w, (inr x, w).

#[global] Instance M_bind : MBind M := λ A B f m w,
  match m w with
  | (inl e, w') => (inl e, w')
  | (inr x, w') => f x w'
  end.

Definition throw {A} (e : exn) : M A := λ w, (inl e, w).

(** [try { m } catch (e) { h e }] *)
Definition try_catch {A} (m : M A) (h : exn → M A) : M A := λ w,
  match m w with
  | (inl e, w') => h e w'
  | (inr x, w') => (inr x, w')
  end.

(** ** Records of the comparator *)

(** One element of [results.comparisons]. *)
Module Outcome.
Record t := {
  filename : string;
  status : string;
  baseline : string;
  current : string;
  diff : option string;
  diffPercentage : JS.number;
  error : option string
}.
End Outcome.

(** The object [compareScreenshots] returns. *)
Module Summary.
Record t := {
  total : N;
  passed : N;
  failed : N;
  new : N;
  comparisons : list Outcome.t
}.
End Summary.

(** The object [compareImages] returns. *)
Module ImageDiff.
Record t := {
  passed : bool;
  diffPixels : N;
  diffPercentage : JS.number;
  diffPath : option string
}.
End ImageDiff.

(** The options object handed to [pixelmatch]. *)
Record options := {
  threshold : Q;
  alpha : Q;
  diffColor : list N;
  diffColorAlt : list N
}.

(** ** What the class takes from its platform *)

Class Platform := {
  (** Node's [path] module *)
  path_join : list string → string;
  path_basename : string → string;
  path_dirname : string → string;
  (** what [pixelmatch] computes once its arguments are accepted: the
      number of differing pixels and the painted output buffer *)
  match_pixels :
    list Byte.byte → list Byte.byte → N → N → options → N * list Byte.byte;
  (** [new Date(ms).toISOString()] *)
  toISOString : Z → string;
  (** Number::toString for the magnitudes [toFixed] does not format *)
  toString : Q → string
}.

(** the order of a listing: that of the characters of the names *)
Definition name_le (a b : string) : Prop := String.leb a b = true.

#[global] Instance name_le_dec : RelDecision name_le :=
  λ a b, decide (String.leb a b = true).

Section Comparator.
Context `{Platform}.

(** *** [fs/promises] *)

Definition access (p : string) : M unit := λ w,
  match files w !! p with
  | Some (Regular _) => (inr tt, w)
  | Some (Failing c) => (inl (SystemError c "access" p), w)
  | None => (inl (SystemError ENOENT "access" p), w)
  end.

Definition copyFile (src dest : string) : M unit := λ w,
  match files w !! src with
  | Some (Regular f) =>
      match files w !! dest with
      | Some (Failing c) => (inl (SystemError c "copyfile" dest), w)
      | _ =>
          (inr tt,
           set_files (<[dest := Regular {| body := body f; mtime := clock w |}]> (files w)) w)
      end
  | Some (Failing c) => (inl (SystemError c "copyfile" src), w)
  | None => (inl (SystemError ENOENT "copyfile" src), w)
  end.

(** The names in a directory are the base names of the paths of the map
    that lie directly in it. *)
Definition entries_of (dir : string) (m : gmap string entry) : list string :=
  filter (λ k, path_dirname k = dir) (map_to_list m).*1.

Definition readdir (dir : string) : M (list string) := λ w,
  match files w !! dir with
  | Some (Failing c) => (inl (SystemError c "scandir" dir), w)
  | Some (Regular _) => (inl (SystemError ENOTDIR "scandir" dir), w)
  | None =>
      (inr (merge_sort name_le (path_basename <$> entries_of dir (files w))), w)
  end.

Definition stat (p : string) : M file := λ w,
  match files w !! p with
  | Some (Regular f) => (inr f, w)
  | Some (Failing c) => (inl (SystemError c "stat" p), w)
  | None => (inl (SystemError ENOENT "stat" p), w)
  end.

Definition unlink (p : string) : M unit := λ w,
  match files w !! p with
  | Some (Regular _) => (inr tt, set_files (delete p (files w)) w)
  | Some (Failing c) => (inl (SystemError c "unlink" p), w)
  | None => (inl (SystemError ENOENT "unlink" p), w)
  end.

Definition writeFile (p : string) (text : string) : M unit := λ w,
  match files w !! p with
  | Some (Failing c) => (inl (SystemError c "open" p), w)
  | _ =>
      (inr tt,
       set_files (<[p := Regular {| body := Raw (list_byte_of_string text);
                                    mtime := clock w |}]> (files w)) w)
  end.

(** [Date.now()] *)
Definition Date_now : M Z := λ w, (inr (clock w), w).

(** *** [pngjs] and [pixelmatch] *)

(** [new PNG({ width, height })]: a zero-filled buffer of that size *)
Definition new_PNG (w h : N) : image :=
  {| width := w; height := h; data := repeat Byte.x00 (N.to_nat (4 * w * h)) |}.

(** [pixelmatch(img1, img2, output, width, height, options)]: the
    package checks the sizes of its buffers before it compares. *)
Definition pixelmatch (img1 img2 output : list Byte.byte) (w h : N) (o : options)
  : M (N * list Byte.byte) :=
  if negb (length img1 =? length img2)%nat || negb (length output =? length img1)%nat
  then throw (Error "Image sizes do not match.")
  else if negb (N.of_nat (length img1) =? w * h * 4)%N
  then throw (Error "Image data size does not match width/height.")
  else mret (match_pixels img1 img2 w h o).

(** *** class VisualRegressionTester *)

Record VisualRegressionTester := {
  reportsDir : string;
  baselineDir : string;
  diffDir : string
}.

Definition constructor (reports : string) : VisualRegressionTester :=
  {| reportsDir := reports;
     baselineDir := path_join [reports; ".."; ".."; "baselines"];
     diffDir := path_join [reports; "diffs"] |}.

Section Methods.
Variable this : VisualRegressionTester.

(** [fs.createReadStream] is [undefined]: the executor of the promise
    throws at its second statement, before anything is read *)
Definition loadPNG (imagePath : string) : M image :=
  throw (TypeError "fs.createReadStream").

(** [fs.createWriteStream] is [undefined]: the executor throws at its
    first statement, before anything is written *)
Definition savePNG (img : image) (outputPath : string) : M unit :=
  throw (TypeError "fs.createWriteStream").

Definition fileExists (filePath : string) : M bool :=
  try_catch (access filePath ;; mret true) (λ _, mret false).

Definition pixelmatch_options : options :=
  {| threshold := 1 # 10; alpha := 1 # 10;
     diffColor := [255; 0; 0]%N; diffColorAlt := [0; 255; 0]%N |}.

Definition compareImages (currentPath baselinePath diffPath : string) : M ImageDiff.t :=
  currentImage ← loadPNG currentPath;
  baselineImage ← loadPNG baselinePath;
  let width := width currentImage in
  let height := height currentImage in
  let diff := new_PNG width height in
  '(diffPixels, painted) ←
    pixelmatch (data currentImage) (data baselineImage) (data diff)
               width height pixelmatch_options;
  let diffPercentage :=
    JS.mul (JS.div (JS.of_N diffPixels) (JS.of_N (width * height))) (JS.of_N 100) in
  let passed := JS.lt diffPercentage (JS.of_N 5) in
  (if negb passed
   then savePNG {| width := width; height := height; data := painted |} diffPath
   else mret tt) ;;
  mret {| ImageDiff.passed := passed;
          ImageDiff.diffPixels := diffPixels;
          ImageDiff.diffPercentage := diffPercentage;
          ImageDiff.diffPath := if passed then None else Some diffPath |}.

(** Updates of the [results] object. *)
Definition incr_total (r : Summary.t) : Summary.t :=
  {| Summary.total := Summary.total r + 1; Summary.passed := Summary.passed r;
     Summary.failed := Summary.failed r; Summary.new := Summary.new r;
     Summary.comparisons := Summary.comparisons r |}.
Definition incr_passed (r : Summary.t) : Summary.t :=
  {| Summary.total := Summary.total r; Summary.passed := Summary.passed r + 1;
     Summary.failed := Summary.failed r; Summary.new := Summary.new r;
     Summary.comparisons := Summary.comparisons r |}.
Definition incr_failed (r : Summary.t) : Summary.t :=
  {| Summary.total := Summary.total r; Summary.passed := Summary.passed r;
     Summary.failed := Summary.failed r + 1; Summary.new := Summary.new r;
     Summary.comparisons := Summary.comparisons r |}.
Definition incr_new (r : Summary.t) : Summary.t :=
  {| Summary.total := Summary.total r; Summary.passed := Summary.passed r;
     Summary.failed := Summary.failed r; Summary.new := Summary.new r + 1;
     Summary.comparisons := Summary.comparisons r |}.
Definition push (c : Outcome.t) (r : Summary.t) : Summary.t :=
  {| Summary.total := Summary.total r; Summary.passed := Summary.passed r;
     Summary.failed := Summary.failed r; Summary.new := Summary.new r;
     Summary.comparisons := Summary.comparisons r ++ [c] |}.

Definition baselinePathOf (screenshot : string) : string :=
  path_join [baselineDir this; path_basename screenshot].
Definition diffPathOf (runId screenshot : string) : string :=
  path_join [diffDir this; runId ++ "-" ++ path_basename screenshot].

Definition outcome_new (screenshot : string) : Outcome.t :=
  {| Outcome.filename := path_basename screenshot;
     Outcome.status := "new";
     Outcome.baseline := baselinePathOf screenshot;
     Outcome.current := screenshot;
     Outcome.diff := None;
     Outcome.diffPercentage := JS.of_N 0;
     Outcome.error := None |}.

Definition outcome_compared (runId screenshot : string) (comparison : ImageDiff.t)
  : Outcome.t :=
  {| Outcome.filename := path_basename screenshot;
     Outcome.status := if ImageDiff.passed comparison then "passed" else "failed";
     Outcome.baseline := baselinePathOf screenshot;
     Outcome.current := screenshot;
     Outcome.diff :=
       if ImageDiff.passed comparison then None else Some (diffPathOf runId screenshot);
     Outcome.diffPercentage := ImageDiff.diffPercentage comparison;
     Outcome.error := None |}.

Definition outcome_error (screenshot : string) (e : exn) : Outcome.t :=
  {| Outcome.filename := path_basename screenshot;
     Outcome.status := "error";
     Outcome.baseline := baselinePathOf screenshot;
     Outcome.current := screenshot;
     Outcome.diff := None;
     Outcome.diffPercentage := JS.of_N 100;
     Outcome.error := Some (message e) |}.

(** The body of the [try] block of the loop. The statements that can
    throw ([copyFile], [compareImages]) come before every update of
    [results] in their branch, so [results] is passed as a value. *)
Definition attempt (runId : string) (results : Summary.t) (screenshot : string)
  : M Summary.t :=
  let baselinePath := baselinePathOf screenshot in
  let diffPath := diffPathOf runId screenshot in
  found ← fileExists baselinePath;
  if negb found then
    copyFile screenshot baselinePath ;;
    mret (push (outcome_new screenshot) (incr_new results))
  else
    comparison ← compareImages screenshot baselinePath diffPath;
    let results := push (outcome_compared runId screenshot comparison) results in
    mret (if ImageDiff.passed comparison
          then incr_passed results else incr_failed results).

(** One iteration of [for (const screenshot of currentScreenshots)]. *)
Definition iteration (runId : string) (results : Summary.t) (screenshot : string)
  : M Summary.t :=
  let results := incr_total results in
  try_catch (attempt runId results screenshot)
            (λ error, mret (push (outcome_error screenshot error) (incr_failed results))).

Fixpoint for_of (runId : string) (currentScreenshots : list string)
         (results : Summary.t) : M Summary.t :=
  match currentScreenshots with
  | [] => mret results
  | screenshot :: rest =>
      results ← iteration runId results screenshot;
      for_of runId rest results
  end.

Definition compareScreenshots (currentScreenshots : list string) (runId : string)
  : M Summary.t :=
  for_of runId currentScreenshots
    {| Summary.total := 0; Summary.passed := 0; Summary.failed := 0;
       Summary.new := 0; Summary.comparisons := [] |}.

(** *** The report *)

Definition nl : string := String (ascii_of_nat 10) "".

Definition status_glyph (status : string) : string :=
  if decide (status = "passed") then "✅"
  else if decide (status = "failed") then "❌"
  else if decide (status = "new") then "📸"
  else "⚠️".

(** the cell of the [Diff %] column *)
Definition diffPercent (comparison : Outcome.t) : string :=
  if JS.truthy (Outcome.diffPercentage comparison)
  then JS.toFixed toString 2 (Outcome.diffPercentage comparison) ++ "%"
  else "N/A".

Definition link (label target : string) : string :=
  if decide (target = "") then "N/A"
  else "[" ++ label ++ "](" ++ path_basename target ++ ")".

Definition diffLink (comparison : Outcome.t) : string :=
  match Outcome.diff comparison with
  | Some d => link "Diff" d
  | None => "N/A"
  end.

Definition report_row (comparison : Outcome.t) : string :=
  "| " ++ Outcome.filename comparison ++
  " | " ++ status_glyph (Outcome.status comparison) ++
  " | " ++ diffPercent comparison ++
  " | " ++ link "Baseline" (Outcome.baseline comparison) ++
  " | " ++ link "Current" (Outcome.current comparison) ++
  " | " ++ diffLink comparison ++ " |" ++ nl.

Definition report_header (comparisonResults : Summary.t) (runId : string) (date : Z)
  : string :=
  "# Visual Regression Report" ++ nl ++ nl ++
  "**Run ID:** " ++ runId ++ "  " ++ nl ++
  "**Date:** " ++ toISOString date ++ "  " ++ nl ++
  "**Total Screenshots:** " ++ pretty (Summary.total comparisonResults) ++ nl ++ nl ++
  "## Summary" ++ nl ++ nl ++
  "- ✅ **Passed:** " ++ pretty (Summary.passed comparisonResults) ++ nl ++
  "- ❌ **Failed:** " ++ pretty (Summary.failed comparisonResults) ++ "  " ++ nl ++
  "- 📸 **New:** " ++ pretty (Summary.new comparisonResults) ++ nl ++ nl ++
  "## Detailed Results" ++ nl ++ nl ++
  "| Screenshot | Status | Diff % | Baseline | Current | Diff |" ++ nl ++
  "|------------|--------|--------|----------|---------|------|" ++ nl.

Definition recommendations (comparisonResults : Summary.t) : string :=
  nl ++ "## Recommendations" ++ nl ++ nl ++
  (if (0 <? Summary.failed comparisonResults)%N
   then "⚠️ **" ++ pretty (Summary.failed comparisonResults) ++
        " screenshots have visual differences.** Please review the diff images to determine if changes are intentional or represent UI regressions." ++ nl ++ nl
   else "") ++
  (if (0 <? Summary.new comparisonResults)%N
   then "📸 **" ++ pretty (Summary.new comparisonResults) ++
        " new screenshots added to baseline.** These will be used as the new reference for future comparisons." ++ nl ++ nl
   else "") ++
  (if (0 <? Summary.passed comparisonResults)%N
   then "✅ **" ++ pretty (Summary.passed comparisonResults) ++
        " screenshots match baseline.** No visual changes detected." ++ nl ++ nl
   else "").

Definition report_footer : string :=
  "## Next Steps" ++ nl ++ nl ++
  "1. **Review Failed Comparisons**: Check diff images for unintended UI changes" ++ nl ++
  "2. **Update Baselines**: If changes are intentional, they will automatically become new baselines" ++ nl ++
  "3. **Investigate Failures**: Look for patterns in failed comparisons (e.g., timing issues, dynamic content)" ++ nl ++
  "4. **Optimize Thresholds**: Adjust diff thresholds if needed for better accuracy" ++ nl ++ nl ++
  "## Technical Details" ++ nl ++ nl ++
  "- **Diff Threshold**: 5% (configurable)" ++ nl ++
  "- **Baseline Directory**: `" ++ baselineDir this ++ "`" ++ nl ++
  "- **Diff Directory**: `" ++ diffDir this ++ "`" ++ nl ++
  "- **Image Format**: PNG" ++ nl ++
  "- **Comparison Algorithm**: Pixelmatch with alpha channel support" ++ nl.

Definition generateVisualRegressionReport (comparisonResults : Summary.t)
           (runId : string) : M string :=
  let reportPath := path_join [reportsDir this; "visual-regression-report.md"] in
  date ← Date_now;
  let report :=
    report_header comparisonResults runId date ++
    String.concat "" (map report_row (Summary.comparisons comparisonResults)) ++
    recommendations comparisonResults ++
    report_footer in
  writeFile reportPath report ;;
  mret reportPath.

(** *** Clean-up and baseline administration *)

(** the body of [for (const file of files)] and the loop *)
Fixpoint cleanup_loop (now : Z) (maxAge : JS.number) (dirFiles : list string)
  : M unit :=
  match dirFiles with
  | [] => mret tt
  | file :: rest =>
      let filePath := path_join [diffDir this; file] in
      stats ← stat filePath;
      (if JS.gt (JS.sub_Z now (mtime stats)) maxAge
       then unlink filePath else mret tt) ;;
      cleanup_loop now maxAge rest
  end.

(** the default value of [maxAge]: seven days in milliseconds *)
Definition default_maxAge : JS.number := JS.of_Z (7 * 24 * 60 * 60 * 1000).

Definition cleanupOldDiffs (maxAge : JS.number) : M unit :=
  try_catch
    (dirFiles ← readdir (diffDir this);
     now ← Date_now;
     cleanup_loop now maxAge dirFiles)
    (λ error, mret tt).

Definition getBaselineList : M (list string) :=
  try_catch
    (dirFiles ← readdir (baselineDir this);
     mret (List.filter (λ file, JSString.endsWith file ".png") dirFiles))
    (λ _, mret []).

Definition updateBaseline (screenshotPath filename : string) : M unit :=
  let baselinePath := path_join [baselineDir this; filename] in
  copyFile screenshotPath baselinePath.

Definition deleteBaseline (filename : string) : M unit :=
  let baselinePath := path_join [baselineDir this; filename] in
  try_catch (unlink baselinePath) (λ error, mret tt).

End Methods.
End Comparator.

(** ** The run identifier of [TestRunner]

    [src/core/TestRunner.js], the static method [generateRunId]: the ISO
    text of the current time with its colons and points turned into dashes,
    without its last five characters. *)

Section RunId.
Context `{Platform}.

Definition generateRunId : M string :=
  now ← Date_now;
  mret (JSString.slice_0_minus 5 (JSString.replace_colon_dot (toISOString now))).

End RunId.

(** ** A platform to run the class on

    POSIX paths as Node's [path.posix] computes them. The examples below
    run on it; they never reach the pixel comparison and print no date and
    no number from 1e21 upwards, and the platform gives a count of the
    pixels whose four bytes are not all equal and fixed texts in their
    place. *)

Module Posix.

Definition is_slash (c : ascii) : bool := Ascii.eqb c "/".

Fixpoint split (s : string) : list string :=
  match s with
  | EmptyString => [EmptyString]
  | String c s' =>
      if is_slash c then EmptyString :: split s'
      else match split s' with
           | seg :: segs => String c seg :: segs
           | [] => [String c EmptyString]
           end
  end.

(** resolution of [.] and [..] segments; [stack] holds the segments kept
    so far, last one first *)
Fixpoint resolve (allowAboveRoot : bool) (stack segs : list string) : list string :=
  match segs with
  | [] => rev stack
  | seg :: rest =>
      if decide (seg = "" ∨ seg = ".") then resolve allowAboveRoot stack rest
      else if decide (seg = "..") then
        match stack with
        | top :: stack' =>
            if decide (top = "..") then resolve allowAboveRoot (seg :: stack) rest
            else resolve allowAboveRoot stack' rest
        | [] =>
            if allowAboveRoot then resolve allowAboveRoot [seg] rest
            else resolve allowAboveRoot [] rest
        end
      else resolve allowAboveRoot (seg :: stack) rest
  end.

Definition isAbsolute (p : string) : bool :=
  match p with String c _ => is_slash c | EmptyString => false end.

Definition trailingSeparator (p : string) : bool :=
  match String.rev p with String c _ => is_slash c | EmptyString => false end.

Definition normalize (p : string) : string :=
  if decide (p = "") then "."
  else
    let body := String.concat "/" (resolve (negb (isAbsolute p)) [] (split p)) in
    if decide (body = "") then
      if isAbsolute p then "/" else if trailingSeparator p then "./" else "."
    else
      let body := if trailingSeparator p then body ++ "/" else body in
      if isAbsolute p then "/" ++ body else body.

Definition join (parts : list string) : string :=
  match filter (λ part, part ≠ "") parts with
  | [] => "."
  | parts => normalize (String.concat "/" parts)
  end.

Fixpoint drop_slashes (s : string) : string :=
  match s with
  | String c s' => if is_slash c then drop_slashes s' else s
  | EmptyString => EmptyString
  end.

(** the characters up to the first slash, and what follows them *)
Fixpoint span_name (s : string) : string * string :=
  match s with
  | String c s' =>
      if is_slash c then (EmptyString, s)
      else let '(name, rest) := span_name s' in (String c name, rest)
  | EmptyString => (EmptyString, EmptyString)
  end.

Definition basename (p : string) : string :=
  String.rev (fst (span_name (drop_slashes (String.rev p)))).

Definition dirname (p : string) : string :=
  match p with
  | EmptyString => "."
  | String c0 tail =>
      (* the scan from the end stops before the first character *)
      match snd (span_name (drop_slashes (String.rev tail))) with
      | String _ EmptyString => if is_slash c0 then "//" else String c0 EmptyString
      | String _ before => String c0 (String.rev before)
      | EmptyString => if is_slash c0 then "/" else "."
      end
  end.

Definition same_pixel (a0 a1 a2 a3 b0 b1 b2 b3 : Byte.byte) : bool :=
  Byte.eqb a0 b0 && Byte.eqb a1 b1 && Byte.eqb a2 b2 && Byte.eqb a3 b3.

Fixpoint count_differing (a b : list Byte.byte) : N :=
  match a, b with
  | a0 :: a1 :: a2 :: a3 :: a', b0 :: b1 :: b2 :: b3 :: b' =>
      ((if same_pixel a0 a1 a2 a3 b0 b1 b2 b3 then 0 else 1) + count_differing a' b')%N
  | _, _ => 0%N
  end.

Fixpoint paint (a b : list Byte.byte) : list Byte.byte :=
  match a, b with
  | a0 :: a1 :: a2 :: a3 :: a', b0 :: b1 :: b2 :: b3 :: b' =>
      (if same_pixel a0 a1 a2 a3 b0 b1 b2 b3
       then [Byte.xff; Byte.xff; Byte.xff; Byte.xff]
       else [Byte.xff; Byte.x00; Byte.x00; Byte.xff]) ++ paint a' b'
  | _, _ => []
  end.

Definition platform : Platform :=
  {| path_join := join;
     path_basename := basename;
     path_dirname := dirname;
     match_pixels := λ a b _ _ _, (count_differing a b, paint a b);
     toISOString := λ _, "1970-01-01T00:00:00.000Z";
     toString := λ q, pretty (Qfloor q) |}.

End Posix.

(** ** Vocabulary of the statements *)

(** the number of outcomes with a given status *)
Definition count_status (s : string) (l : list Outcome.t) : N :=
  N.of_nat (length (filter (λ c, Outcome.status c = s) l)).

(** nothing stands in the way of writing at [p] *)
Definition writable (m : gmap string entry) (p : string) : Prop :=
  ∀ c, m !! p ≠ Some (Failing c).

(** the path holds a PNG file that decodes to [img] *)
Definition holds_png (m : gmap string entry) (p : string) (img : image) : Prop :=
  ∃ f, m !! p = Some (Regular f) ∧ body f = Png img.

(** the result of an asynchronous call *)
Definition returns {A} (m : M A) (w : world) (x : A) (w' : world) : Prop :=
  m w = (inr x, w').
Definition throws {A} (m : M A) (w : world) (e : exn) (w' : world) : Prop :=
  m w = (inl e, w').

(** the counters of a summary agree with the statuses of its outcomes;
    outcomes with status [error] are counted in [failed] *)
Definition counters_agree (r : Summary.t) : Prop :=
  Summary.total r = N.of_nat (length (Summary.comparisons r)) ∧
  Summary.passed r = count_status "passed" (Summary.comparisons r) ∧
  Summary.new r = count_status "new" (Summary.comparisons r) ∧
  Summary.failed r =
    (count_status "failed" (Summary.comparisons r) +
     count_status "error" (Summary.comparisons r))%N.

(** writing [c] at [p] at the time of the clock *)
Definition write (p : string) (c : content) (w : world) : world :=
  set_files (<[p := Regular {| body := c; mtime := clock w |}]> (files w)) w.

(** ** The loop as a relation

    What one pass of the loop of [compareScreenshots] does with a
    screenshot, by the branch it takes: the outcome it appends and the
    world it leaves. Lemma [iteration_processed] below derives it from
    the code. The branch that pushes the result of [compareImages] is not
    among them: [compareImages] awaits [loadPNG] first and never gets past
    it. *)

Section Steps.
Context `{Platform}.
Variable this : VisualRegressionTester.
Variable runId : string.

Inductive processed (screenshot : string) (w : world) : Outcome.t → world → Prop :=
| adopted f :
    returns (fileExists (baselinePathOf this screenshot)) w false w →
    files w !! screenshot = Some (Regular f) →
    writable (files w) (baselinePathOf this screenshot) →
    processed screenshot w (outcome_new this screenshot)
              (write (baselinePathOf this screenshot) (body f) w)
| adoption_failed e :
    returns (fileExists (baselinePathOf this screenshot)) w false w →
    throws (copyFile screenshot (baselinePathOf this screenshot)) w e w →
    processed screenshot w (outcome_error this screenshot e) w
| comparison_failed e :
    returns (fileExists (baselinePathOf this screenshot)) w true w →
    throws (compareImages screenshot (baselinePathOf this screenshot)
                          (diffPathOf this runId screenshot)) w e w →
    processed screenshot w (outcome_error this screenshot e) w.

Inductive processed_all : list string → world → list Outcome.t → world → Prop :=
| processed_nil w : processed_all [] w [] w
| processed_cons screenshot rest w o w1 os w2 :
    processed screenshot w o w1 →
    processed_all rest w1 os w2 →
    processed_all (screenshot :: rest) w (o :: os) w2.

(** the counter an outcome is counted in, and the whole update of
    [results] by one pass *)
Definition tally (o : Outcome.t) (r : Summary.t) : Summary.t :=
  if decide (Outcome.status o = "new") then incr_new r
  else if decide (Outcome.status o = "passed") then incr_passed r
  else incr_failed r.

Definition recorded (r : Summary.t) (o : Outcome.t) : Summary.t :=
  tally o (push o (incr_total r)).

Definition empty_results : Summary.t :=
  {| Summary.total := 0; Summary.passed := 0; Summary.failed := 0;
     Summary.new := 0; Summary.comparisons := [] |}.
End Steps.

(** ** Vocabulary of the clean-up *)

Section Retention.
Context `{Platform}.
Variable this : VisualRegressionTester.

(** the test of [cleanupOldDiffs]: [now - mtime > maxAge] *)
Definition older_than (now : Z) (maxAge : JS.number) (f : file) : bool :=
  JS.gt (JS.sub_Z now (mtime f)) maxAge.

(** nothing in the way of the scan: the diff directory can be listed,
    and each path in it is the directory joined with its base name and
    holds a regular file *)
Definition is_regular (e : entry) : bool :=
  match e with Regular _ => true | Failing _ => false end.

(** the directories a path lies in, from the nearest one up *)
Fixpoint ancestors (fuel : nat) (p : string) : list string :=
  match fuel with
  | O => []
  | S n => let d := path_dirname p in d :: ancestors n d
  end.

(** a directory without directories in it: the paths are normalised, and
    whatever lies below [dir] lies directly in it *)
Definition flat (dir : string) (m : gmap string entry) : Prop :=
  map_Forall (λ k _, path_join [k] = k ∧
                     (dir ∈ ancestors (String.length k) k → path_dirname k = dir)) m.

Definition scan_unhindered (w : world) : Prop :=
  files w !! diffDir this = None ∧
  map_Forall (λ k e, path_dirname k = diffDir this →
                     path_join [diffDir this; path_basename k] = k ∧
                     is_regular e = true) (files w).
End Retention.

(** ** Worlds for the examples *)

Module Examples.

Definition tester : VisualRegressionTester :=
  constructor (H := Posix.platform) "reports/run1".

Definition white : list Byte.byte := [Byte.xff; Byte.xff; Byte.xff; Byte.xff].
Definition black : list Byte.byte := [Byte.x00; Byte.x00; Byte.x00; Byte.xff].

(** two pixels side by side, two pixels stacked, and a single pixel *)
Definition wide : image := {| width := 2; height := 1; data := white ++ white |}.
Definition wide_changed : image := {| width := 2; height := 1; data := white ++ black |}.
Definition tall : image := {| width := 1; height := 2; data := white ++ white |}.
Definition dot : image := {| width := 1; height := 1; data := white |}.

Definition at_time (t : Z) (c : content) : entry := Regular {| body := c; mtime := t |}.

Definition home : string := "reports/run1/01-home.png".
Definition login : string := "reports/run1/02-login.png".

(** a first run: two captures, no baseline yet *)
Definition first_run : world :=
  {| files := {[ home := at_time 1000 (Png wide); login := at_time 1001 (Png dot) ]};
     clock := 2000 |}.

(** the baseline of [home] exists and the capture is the same image *)
Definition unchanged_run : world :=
  {| files := {[ home := at_time 1000 (Png wide);
                 "baselines/01-home.png" := at_time 500 (Png wide) ]};
     clock := 2000 |}.

(** the capture differs from its baseline in one pixel of two *)
Definition changed_run : world :=
  {| files := {[ home := at_time 1000 (Png wide_changed);
                 "baselines/01-home.png" := at_time 500 (Png wide) ]};
     clock := 2000 |}.

(** the baseline has the pixels of the capture in another shape *)
Definition reshaped_run : world :=
  {| files := {[ home := at_time 1000 (Png wide);
                 "baselines/01-home.png" := at_time 500 (Png tall) ]};
     clock := 2000 |}.

(** the baseline has another number of pixels than the capture *)
Definition resized_run : world :=
  {| files := {[ home := at_time 1000 (Png wide);
                 "baselines/01-home.png" := at_time 500 (Png dot) ]};
     clock := 2000 |}.

(** the capture of [home] is not a PNG file; [login] is fine *)
Definition corrupt_run : world :=
  {| files := {[ home := at_time 1000 (Raw [Byte.x00; Byte.x01]);
                 "baselines/01-home.png" := at_time 500 (Png wide);
                 login := at_time 1001 (Png dot) ]};
     clock := 2000 |}.

(** the diff directory some days later: an old diff image, a recent one,
    and a baseline elsewhere *)
Definition later : world :=
  {| files := {[ "reports/run1/diffs/p0-01-home.png" := at_time 100 (Png wide);
                 "reports/run1/diffs/p1-01-home.png" := at_time 1900 (Png wide);
                 "baselines/01-home.png" := at_time 500 (Png wide) ]};
     clock := 2000 |}.

(** a diff image written in the millisecond of the clean-up *)
Definition just_written : world :=
  {| files := {[ "reports/run1/diffs/p1-01-home.png" := at_time 2000 (Png wide) ]};
     clock := 2000 |}.

(** a diff directory that cannot be listed, with an old diff image in it *)
Definition unlistable : world :=
  {| files := {[ "reports/run1/diffs" := Failing EACCES;
                 "reports/run1/diffs/p0-01-home.png" := at_time 100 (Png wide) ]};
     clock := 2000 |}.

(** a summary with one outcome, an eighth of whose pixels differ *)
Definition eighth : Summary.t :=
  {| Summary.total := 1; Summary.passed := 0; Summary.failed := 1; Summary.new := 0;
     Summary.comparisons :=
       [ {| Outcome.filename := "01-home.png"; Outcome.status := "failed";
            Outcome.baseline := "baselines/01-home.png";
            Outcome.current := "reports/run1/01-home.png";
            Outcome.diff := Some "reports/run1/diffs/p1-01-home.png";
            Outcome.diffPercentage := JS.Num (25 # 2); Outcome.error := None |} ] |}.

(** the baseline of another screenshot, and a run identifier that leads
    from the diff directory to the baseline directory *)
Definition traversing_runId : string := "../../../baselines/00".
Definition traversed : world :=
  {| files := {[ home := at_time 1000 (Png wide_changed);
                 "baselines/01-home.png" := at_time 500 (Png wide);
                 "baselines/00-01-home.png" := at_time 400 (Png dot) ]};
     clock := 2000 |}.

End Examples.

(** ** Properties *)

Section Properties.
Context `{Platform}.

Ltac run :=
  unfold returns, throws, mbind, M_bind, mret, M_ret, throw, try_catch in *; simpl in *.

(** *** Numbers *)

Lemma Qltb_lt (a b : Q) : JS.Qltb a b = true ↔ (a < b)%Q.
Proof. unfold JS.Qltb, Qlt. apply Z.ltb_lt. Qed.

Lemma is_zero_eq (q : Q) : JS.is_zero q = true ↔ (q == 0)%Q.
Proof. unfold JS.is_zero, Qeq. simpl. rewrite Z.eqb_eq. lia. Qed.

Lemma append_empty_r (s : string) : s ++ "" = s.
Proof.
  induction s as [|c s IH]; [reflexivity|].
  change (String c (s ++ "") = String c s). by rewrite IH.
Qed.

(** [toFixed(2)] of a finite number below 1e21: the hundredths are
    rounded to the closest integer [n], up on a tie, and printed as the
    integer part, a point and two digits *)
Lemma toFixed_2_finite (ts : Q → string) (q : Q) :
  (Qabs q < 10 ^ 21)%Q →
  let n := Z.to_N (Qfloor (Qabs q * 100 + (1 # 2))) in
  (inject_Z (Z.of_N n) <= Qabs q * 100 + (1 # 2) < inject_Z (Z.of_N n) + 1)%Q ∧
  JS.toFixed ts 2 (JS.Num q) =
    (if JS.Qltb q 0 then "-" else "") ++ pretty (n / 100)%N ++ "." ++
    JS.digit (n / 10) ++ JS.digit n.
Proof.
  intros Hb n. split.
  - assert (Hnn : (0 <= Qfloor (Qabs q * 100 + (1 # 2)))%Z).
    { change 0%Z with (Qfloor 0). apply Qfloor_resp_le.
      pose proof (Qabs_nonneg q). nra. }
    unfold n. rewrite Z2N.id by exact Hnn. split.
    + apply Qfloor_le.
    + rewrite <- (inject_Z_plus _ 1). apply Qlt_floor.
  - unfold JS.toFixed. apply Qltb_lt in Hb. rewrite Hb.
    change (10 ^ Z.of_nat 2)%Q with 100%Q.
    change (10 ^ N.of_nat 2)%N with 100%N.
    fold n. unfold JS.fraction_digits.
    change (10 ^ N.of_nat 1)%N with 10%N.
    change (10 ^ N.of_nat 0)%N with 1%N.
    rewrite N.div_1_r, append_empty_r. reflexivity.
Qed.

(** no differing pixel gives a falsy percentage, with or without pixels *)
Lemma percentage_of_none (n : N) :
  JS.truthy (JS.mul (JS.div (JS.of_N 0) (JS.of_N n)) (JS.of_N 100)) = false.
Proof.
  unfold JS.div, JS.of_N, JS.of_Z.
  destruct (JS.is_zero (inject_Z (Z.of_N n))); [reflexivity|].
  unfold JS.mul, JS.truthy. apply negb_false_iff, is_zero_eq.
  rewrite !Qred_correct. unfold Qdiv. ring.
Qed.

(** *** The existence check *)

Lemma fileExists_eq (p : string) (w : world) :
  fileExists p w =
    (inr (match files w !! p with Some (Regular _) => true | _ => false end), w).
Proof.
  unfold fileExists, access. run.
  destruct (files w !! p) as [[f|c]|]; reflexivity.
Qed.

(** C8, as amended: [fileExists] never throws. It returns [true] when
    [fs.access] succeeds and [false] whenever [fs.access] throws,
    whatever the code of the error. *)
Theorem fileExists_never_throws (p : string) (w : world) :
  fileExists p w =
    (inr (match fst (access p w) with inr _ => true | inl _ => false end), w).
Proof.
  rewrite fileExists_eq. unfold access.
  destruct (files w !! p) as [[f|c]|]; reflexivity.
Qed.

(** *** Comparing two images *)

(** the first statement of [compareImages] awaits a rejected promise:
    nothing after it runs, whatever the two paths hold *)
Lemma loadPNG_throws imagePath w :
  throws (loadPNG imagePath) w (TypeError "fs.createReadStream") w.
Proof. reflexivity. Qed.

Lemma savePNG_throws img outputPath w :
  throws (savePNG img outputPath) w (TypeError "fs.createWriteStream") w.
Proof. reflexivity. Qed.

Lemma compareImages_throws cur base dp w :
  throws (compareImages cur base dp) w (TypeError "fs.createReadStream") w.
Proof. reflexivity. Qed.

Lemma compareImages_never_returns cur base dp w c w' :
  ¬ returns (compareImages cur base dp) w c w'.
Proof.
  intros Hret. pose proof (compareImages_throws cur base dp w) as Hthrow.
  unfold returns, throws in *. congruence.
Qed.

(** a comparison that throws has written nothing *)
Lemma compareImages_throws_inv cur base dp w e w' :
  throws (compareImages cur base dp) w e w' → w' = w.
Proof.
  intros Hthrow. pose proof (compareImages_throws cur base dp w) as Hw.
  unfold throws in *. congruence.
Qed.

Lemma compareImages_throws_what cur base dp w e w' :
  throws (compareImages cur base dp) w e w' → e = TypeError "fs.createReadStream".
Proof.
  intros Hthrow. pose proof (compareImages_throws cur base dp w) as Hw.
  unfold throws in *. congruence.
Qed.

(** *** One pass of the loop *)

Section Loop.
Variable this : VisualRegressionTester.
Variable runId : string.

Lemma copyFile_cases src dest w :
  (∃ f, files w !! src = Some (Regular f) ∧ writable (files w) dest ∧
        returns (copyFile src dest) w () (write dest (body f) w))
  ∨ (∃ e, throws (copyFile src dest) w e w).
Proof.
  unfold copyFile, returns, throws, writable.
  destruct (files w !! src) as [[f|c]|] eqn:Hs; eauto.
  destruct (files w !! dest) as [[fd|cd]|] eqn:Hd; eauto;
    left; exists f; (repeat split; [congruence|reflexivity]).
Qed.

Lemma iteration_processed r screenshot w :
  ∃ o w', returns (iteration this runId r screenshot) w (recorded r o) w' ∧
          processed this runId screenshot w o w'.
Proof.
  unfold iteration, attempt. run.
  pose proof (fileExists_eq (baselinePathOf this screenshot) w) as Hex.
  rewrite Hex.
  destruct (match files w !! baselinePathOf this screenshot with
            | Some (Regular _) => true | _ => false end) eqn:Hfound; simpl.
  - exists (outcome_error this screenshot (TypeError "fs.createReadStream")), w.
    split; [reflexivity|].
    eapply comparison_failed; eauto. apply compareImages_throws.
  - destruct (copyFile_cases screenshot (baselinePathOf this screenshot) w)
      as [(f & Hs & Hwr & Hcp)|(e & Hcp)]; run; rewrite Hcp.
    + exists (outcome_new this screenshot),
             (write (baselinePathOf this screenshot) (body f) w).
      split; [reflexivity|]. eapply adopted; eauto.
    + exists (outcome_error this screenshot e), w. split; [reflexivity|].
      eapply adoption_failed; eauto.
Qed.

Lemma for_of_processed screenshots r w :
  ∃ os w', returns (for_of this runId screenshots r) w (fold_left recorded os r) w' ∧
           processed_all this runId screenshots w os w'.
Proof.
  revert r w. induction screenshots as [|s rest IH]; intros r w.
  - exists [], w. split; [reflexivity|constructor].
  - destruct (iteration_processed r s w) as (o & w1 & Hit & Hp).
    destruct (IH (recorded r o) w1) as (os & w2 & Hrest & Hps).
    exists (o :: os), w2. split; [|econstructor; eauto].
    simpl. run. rewrite Hit. exact Hrest.
Qed.

Lemma compareScreenshots_processed screenshots w :
  ∃ os w', returns (compareScreenshots this screenshots runId) w
                   (fold_left recorded os empty_results) w' ∧
           processed_all this runId screenshots w os w'.
Proof. apply for_of_processed. Qed.

End Loop.

(** *** The counters *)

Lemma count_status_snoc s l o :
  count_status s (l ++ [o]) =
    (count_status s l + if decide (Outcome.status o = s) then 1 else 0)%N.
Proof.
  unfold count_status. rewrite filter_app, length_app.
  rewrite filter_cons, filter_nil.
  destruct (decide (Outcome.status o = s)); simpl; lia.
Qed.

Lemma processed_status this runId screenshot w o w' :
  processed this runId screenshot w o w' →
  Outcome.status o = "new" ∨ Outcome.status o = "passed" ∨
  Outcome.status o = "failed" ∨ Outcome.status o = "error".
Proof.
  destruct 1; simpl; auto.
Qed.

Lemma recorded_sum r o :
  Summary.total r = (Summary.passed r + Summary.failed r + Summary.new r)%N →
  Summary.total (recorded r o) =
    (Summary.passed (recorded r o) + Summary.failed (recorded r o) +
     Summary.new (recorded r o))%N.
Proof.
  unfold recorded, tally. intros Hr.
  repeat case_decide; simpl; lia.
Qed.

Lemma recorded_counters r o :
  Outcome.status o = "new" ∨ Outcome.status o = "passed" ∨
  Outcome.status o = "failed" ∨ Outcome.status o = "error" →
  counters_agree r → counters_agree (recorded r o).
Proof.
  unfold counters_agree, recorded, tally.
  intros Hst (Ht & Hp & Hn & Hf).
  destruct Hst as [Hs|[Hs|[Hs|Hs]]]; rewrite Hs;
    repeat case_decide; try done; simpl;
    rewrite !count_status_snoc, ?length_app, Hs; simpl;
    repeat case_decide; try done; repeat split; lia.
Qed.

Lemma recorded_comparisons os r :
  Summary.comparisons (fold_left recorded os r) = (Summary.comparisons r ++ os)%list.
Proof.
  revert r. induction os as [|o os IH]; intros r; simpl.
  - by rewrite app_nil_r.
  - rewrite IH. unfold recorded, tally.
    repeat case_decide; simpl; by rewrite <- app_assoc.
Qed.

Lemma processed_all_counters this runId screenshots w os w' r :
  processed_all this runId screenshots w os w' →
  Summary.total r = (Summary.passed r + Summary.failed r + Summary.new r)%N →
  counters_agree r →
  Summary.total (fold_left recorded os r) =
    (Summary.passed (fold_left recorded os r) + Summary.failed (fold_left recorded os r) +
     Summary.new (fold_left recorded os r))%N ∧
  counters_agree (fold_left recorded os r).
Proof.
  intros Hall. revert r. induction Hall as [|s rest w o w1 os w2 Hp Hall IH]; intros r Hs Hc.
  - simpl. auto.
  - simpl. apply IH.
    + by apply recorded_sum.
    + apply recorded_counters; [|done]. eapply processed_status; eauto.
Qed.

Lemma processed_all_length this runId screenshots w os w' :
  processed_all this runId screenshots w os w' → length os = length screenshots.
Proof. induction 1; simpl; congruence. Qed.

(** C1: every call of [compareScreenshots] returns a summary, and in it
    [total = passed + failed + new]; there is one outcome per screenshot,
    and [failed] counts the outcomes with status [failed] together with
    those with status [error]. *)
Theorem compareScreenshots_counters this (screenshots : list string) (runId : string)
        (w : world) :
  ∃ r w',
    returns (compareScreenshots this screenshots runId) w r w' ∧
    Summary.total r = (Summary.passed r + Summary.failed r + Summary.new r)%N ∧
    Summary.total r = N.of_nat (length screenshots) ∧
    Summary.passed r = count_status "passed" (Summary.comparisons r) ∧
    Summary.new r = count_status "new" (Summary.comparisons r) ∧
    Summary.failed r =
      (count_status "failed" (Summary.comparisons r) +
       count_status "error" (Summary.comparisons r))%N.
Proof.
  destruct (compareScreenshots_processed this runId screenshots w)
    as (os & w' & Hret & Hall).
  exists (fold_left recorded os empty_results), w'.
  split; [exact Hret|].
  destruct (processed_all_counters _ _ _ _ _ _ empty_results Hall)
    as (Hsum & Ht & Hp & Hn & Hf).
  - reflexivity.
  - repeat split; reflexivity.
  - repeat split; try assumption.
    rewrite Ht, recorded_comparisons. simpl.
    by rewrite (processed_all_length _ _ _ _ _ _ Hall).
Qed.

(** *** Runs and their parts *)

Lemma for_of_app this runId l1 l2 r w r1 w1 :
  returns (for_of this runId l1 r) w r1 w1 →
  for_of this runId (l1 ++ l2) r w = for_of this runId l2 r1 w1.
Proof.
  revert r w. induction l1 as [|s l1 IH]; intros r w; simpl; run.
  - by intros [= -> ->].
  - destruct (iteration this runId r s w) as [[e|r'] w']; [discriminate|].
    apply IH.
Qed.

Lemma for_of_comparisons this runId l r w r' w' :
  returns (for_of this runId l r) w r' w' →
  ∃ os, Summary.comparisons r' = (Summary.comparisons r ++ os)%list ∧
        length os = length l ∧ processed_all this runId l w os w'.
Proof.
  intros Hret.
  destruct (for_of_processed this runId l r w) as (os & w2 & Hret' & Hall).
  unfold returns in *. rewrite Hret in Hret'. injection Hret' as -> ->.
  exists os. split; [apply recorded_comparisons|].
  split; [eapply processed_all_length|]; eauto.
Qed.

(** the loop creates and overwrites files, it removes none *)
Lemma processed_keeps_files this runId screenshot w o w' p f :
  processed this runId screenshot w o w' →
  files w !! p = Some (Regular f) → ∃ f', files w' !! p = Some (Regular f').
Proof.
  intros Hp Hf. destruct Hp as [f0 ? ? ?|e ? ?|e ? ?]; eauto.
  - unfold write, set_files. simpl.
    destruct (decide (baselinePathOf this screenshot = p)) as [->|Hne].
    + rewrite lookup_insert_eq. eauto.
    + rewrite lookup_insert_ne; eauto.
Qed.

Lemma processed_all_keeps_files this runId screenshots w os w' p f :
  processed_all this runId screenshots w os w' →
  files w !! p = Some (Regular f) → ∃ f', files w' !! p = Some (Regular f').
Proof.
  intros Hall. revert f. induction Hall as [|s rest w o w1 os w2 Hp Hall IH]; intros f Hf.
  - eauto.
  - destruct (processed_keeps_files _ _ _ _ _ _ _ _ Hp Hf) as [f' Hf']. eauto.
Qed.

Lemma iteration_adopts this runId r screenshot w f :
  files w !! screenshot = Some (Regular f) →
  files w !! baselinePathOf this screenshot = None →
  returns (iteration this runId r screenshot) w
          (recorded r (outcome_new this screenshot))
          (write (baselinePathOf this screenshot) (body f) w).
Proof.
  intros Hs Hb. unfold iteration, attempt. run.
  rewrite fileExists_eq, Hb. simpl.
  unfold copyFile. rewrite Hs, Hb. reflexivity.
Qed.

(** C2: a capture whose filename has no baseline when the loop reaches
    it is copied to the baseline path and nothing else is written; its
    outcome has status [new], [diffPercentage] 0 and no diff; and when the
    run has returned, [fileExists] answers [true] on the baseline path.
    [w1] is the world the screenshots before it have left. *)
Theorem new_capture_adopted this (runId : string) (before after : list string)
        (screenshot : string) (w w1 : world) (r1 : Summary.t) (f : file) :
  returns (compareScreenshots this before runId) w r1 w1 →
  files w1 !! screenshot = Some (Regular f) →
  files w1 !! baselinePathOf this screenshot = None →
  ∃ r2 r w',
    returns (iteration this runId r1 screenshot) w1 r2
            (write (baselinePathOf this screenshot) (body f) w1) ∧
    returns (compareScreenshots this (before ++ screenshot :: after) runId) w r w' ∧
    (∃ o, Summary.comparisons r !! length before = Some o ∧
          Outcome.filename o = path_basename screenshot ∧
          Outcome.status o = "new" ∧
          Outcome.diffPercentage o = JS.Num 0 ∧
          Outcome.diff o = None) ∧
    returns (fileExists (baselinePathOf this screenshot)) w' true w'.
Proof.
  intros Hbefore Hs Hb.
  pose proof (iteration_adopts this runId r1 screenshot w1 f Hs Hb) as Hit.
  set (w2 := write (baselinePathOf this screenshot) (body f) w1) in *.
  set (r2 := recorded r1 (outcome_new this screenshot)) in *.
  destruct (for_of_processed this runId after r2 w2) as (os & w' & Hafter & Hall).
  exists r2, (fold_left recorded os r2), w'.
  split; [exact Hit|]. split; [|split].
  - unfold compareScreenshots, returns.
    rewrite (for_of_app _ _ _ _ _ _ _ _ Hbefore). simpl. run.
    rewrite Hit. exact Hafter.
  - exists (outcome_new this screenshot).
    apply for_of_comparisons in Hbefore as (os1 & Hc1 & Hlen & _).
    simpl in Hc1. split; [|repeat split].
    rewrite recorded_comparisons. subst r2. unfold recorded, tally. simpl.
    rewrite Hc1, <- Hlen.
    rewrite <- app_assoc. rewrite lookup_app_r by lia.
    by rewrite Nat.sub_diag.
  - unfold returns. rewrite fileExists_eq.
    destruct (processed_all_keeps_files _ _ _ _ _ _ (baselinePathOf this screenshot)
                {| body := body f; mtime := clock w1 |} Hall) as [f' ->]; [|done].
    subst w2. unfold write, set_files. simpl. apply lookup_insert_eq.
Qed.

(** *** A pass in the middle of a run *)

Lemma run_through this runId before after screenshot w w1 w2 r1 o :
  returns (compareScreenshots this before runId) w r1 w1 →
  returns (iteration this runId r1 screenshot) w1 (recorded r1 o) w2 →
  ∃ r w',
    returns (for_of this runId after (recorded r1 o)) w2 r w' ∧
    returns (compareScreenshots this (before ++ screenshot :: after) runId) w r w' ∧
    Summary.comparisons r !! length before = Some o ∧
    length (Summary.comparisons r) = length (before ++ screenshot :: after).
Proof.
  intros Hbefore Hit.
  destruct (for_of_processed this runId after (recorded r1 o) w2)
    as (os & w' & Hafter & Hall).
  exists (fold_left recorded os (recorded r1 o)), w'.
  split; [exact Hafter|]. split.
  - unfold compareScreenshots, returns.
    rewrite (for_of_app _ _ _ _ _ _ _ _ Hbefore). simpl. run.
    rewrite Hit. exact Hafter.
  - apply for_of_comparisons in Hbefore as (os1 & Hc1 & Hlen & _).
    simpl in Hc1.
    assert (Hcs : Summary.comparisons (fold_left recorded os (recorded r1 o))
                  = (os1 ++ o :: os)%list).
    { rewrite recorded_comparisons. unfold recorded, tally.
      repeat case_decide; simpl; rewrite Hc1, <- app_assoc; reflexivity. }
    rewrite Hcs. split.
    + rewrite <- Hlen, lookup_app_r by lia. by rewrite Nat.sub_diag.
    + rewrite !length_app. simpl.
      rewrite (processed_all_length _ _ _ _ _ _ Hall). lia.
Qed.


Lemma iteration_catches this runId r screenshot w e w' :
  throws (attempt this runId (incr_total r) screenshot) w e w' →
  returns (iteration this runId r screenshot) w
          (recorded r (outcome_error this screenshot e)) w'.
Proof. unfold iteration. run. intros ->. reflexivity. Qed.

Lemma attempt_compare_throws this runId r screenshot w fb e w' :
  files w !! baselinePathOf this screenshot = Some (Regular fb) →
  throws (compareImages screenshot (baselinePathOf this screenshot)
                        (diffPathOf this runId screenshot)) w e w' →
  throws (attempt this runId r screenshot) w e w'.
Proof.
  intros Hb Hc.
  pose proof (compareImages_throws_inv _ _ _ _ _ _ Hc) as ->.
  pose proof (compareImages_throws_what _ _ _ _ _ _ Hc) as ->.
  unfold attempt. run. rewrite fileExists_eq, Hb. reflexivity.
Qed.

(** a pass over a screenshot whose baseline is there: the comparison is
    rejected, the [catch] block records it *)
Lemma iteration_rejected this runId r screenshot w fb :
  files w !! baselinePathOf this screenshot = Some (Regular fb) →
  returns (iteration this runId r screenshot) w
          (recorded r (outcome_error this screenshot (TypeError "fs.createReadStream"))) w.
Proof.
  intros Hfb. apply iteration_catches.
  eapply attempt_compare_throws; [exact Hfb|apply compareImages_throws].
Qed.

(** C3, the code as it is: [compareImages] is rejected at its first
    statement, by [loadPNG], whatever the two files hold; no percentage is
    computed and nothing is classified [passed] or [failed]. A pass over a
    screenshot whose baseline is there ends in the [catch] block: status
    [error], [diffPercentage] 100, the message of the [TypeError], and the
    [failed] counter goes up by one. *)
Theorem comparison_rejected this (runId : string) (r : Summary.t)
        (screenshot : string) (w : world) (fb : file) :
  files w !! baselinePathOf this screenshot = Some (Regular fb) →
  throws (compareImages screenshot (baselinePathOf this screenshot)
                        (diffPathOf this runId screenshot)) w
         (TypeError "fs.createReadStream") w ∧
  ∃ o r',
    returns (iteration this runId r screenshot) w r' w ∧
    r' = recorded r o ∧
    Outcome.status o = "error" ∧
    Outcome.diffPercentage o = JS.Num 100 ∧
    Outcome.error o = Some "fs.createReadStream is not a function" ∧
    Outcome.diff o = None ∧
    Summary.comparisons r' = (Summary.comparisons r ++ [o])%list ∧
    Summary.total r' = (Summary.total r + 1)%N ∧
    Summary.failed r' = (Summary.failed r + 1)%N ∧
    Summary.passed r' = Summary.passed r ∧
    Summary.new r' = Summary.new r.
Proof.
  intros Hfb. split; [apply compareImages_throws|].
  eexists _, _. split; [exact (iteration_rejected this runId r screenshot w fb Hfb)|].
  repeat split.
Qed.

(** C4: a capture whose baseline exists and has another width or another
    height gets an outcome with status [error] and [diffPercentage] 100;
    the pass writes nothing, and the run goes on with the remaining
    screenshots and returns one outcome per screenshot. The error recorded
    is the one [loadPNG] is rejected with: the two sizes are never looked
    at. *)
Theorem size_mismatch_is_error this (runId : string) (before after : list string)
        (screenshot : string) (w w1 : world) (r1 : Summary.t) (imgC imgB : image) :
  returns (compareScreenshots this before runId) w r1 w1 →
  holds_png (files w1) screenshot imgC →
  holds_png (files w1) (baselinePathOf this screenshot) imgB →
  width imgB ≠ width imgC ∨ height imgB ≠ height imgC →
  ∃ r2 r w',
    returns (iteration this runId r1 screenshot) w1 r2 w1 ∧
    returns (for_of this runId after r2) w1 r w' ∧
    returns (compareScreenshots this (before ++ screenshot :: after) runId) w r w' ∧
    (∃ o, Summary.comparisons r !! length before = Some o ∧
          Outcome.status o = "error" ∧
          Outcome.diffPercentage o = JS.Num 100 ∧
          Outcome.error o = Some "fs.createReadStream is not a function") ∧
    length (Summary.comparisons r) = length (before ++ screenshot :: after).
Proof.
  intros Hbefore _ (fb & Hfb & _) _.
  pose proof (iteration_rejected this runId r1 screenshot w1 fb Hfb) as Hit.
  destruct (run_through this runId before after screenshot w w1 w1 r1 _ Hbefore Hit)
    as (r & w' & Hafter & Hrun & Ho & Hlen').
  eexists _, r, w'. split; [exact Hit|]. split; [exact Hafter|].
  split; [exact Hrun|]. split; [|exact Hlen'].
  eexists. split; [exact Ho|]. repeat split.
Qed.

(** C5: [compareScreenshots] never throws and returns one outcome per
    screenshot. Whatever is thrown inside the [try] block of a pass (by
    decoding, by the comparison, by the copy of a new baseline) is caught
    in that pass: its outcome has status [error], [diffPercentage] 100, the
    message of the error and no diff, and the run goes on with the
    remaining screenshots. *)
Theorem failure_is_contained this (runId : string) :
  (∀ (screenshots : list string) (w : world),
     ∃ r w', returns (compareScreenshots this screenshots runId) w r w' ∧
             length (Summary.comparisons r) = length screenshots) ∧
  (∀ (before after : list string) (screenshot : string) (w w1 w2 : world)
     (r1 : Summary.t) (e : exn),
     returns (compareScreenshots this before runId) w r1 w1 →
     throws (attempt this runId (incr_total r1) screenshot) w1 e w2 →
     ∃ r2 r w',
       returns (iteration this runId r1 screenshot) w1 r2 w2 ∧
       returns (for_of this runId after r2) w2 r w' ∧
       returns (compareScreenshots this (before ++ screenshot :: after) runId) w r w' ∧
       (∃ o, Summary.comparisons r !! length before = Some o ∧
             Outcome.status o = "error" ∧
             Outcome.diffPercentage o = JS.Num 100 ∧
             Outcome.error o = Some (message e) ∧
             Outcome.diff o = None) ∧
       length (Summary.comparisons r) = length (before ++ screenshot :: after)).
Proof.
  split.
  - intros screenshots w.
    destruct (compareScreenshots_processed this runId screenshots w)
      as (os & w' & Hret & Hall).
    eexists _, w'. split; [exact Hret|].
    rewrite recorded_comparisons. simpl.
    eapply processed_all_length; eauto.
  - intros before after screenshot w w1 w2 r1 e Hbefore Hthrow.
    pose proof (iteration_catches this runId r1 screenshot w1 e w2 Hthrow) as Hit.
    destruct (run_through this runId before after screenshot w w1 w2 r1 _ Hbefore Hit)
      as (r & w' & Hafter & Hrun & Ho & Hlen).
    eexists _, r, w'. split; [exact Hit|]. split; [exact Hafter|].
    split; [exact Hrun|]. split; [|exact Hlen].
    eexists. split; [exact Ho|]. repeat split; reflexivity.
Qed.

(** *** What a pass writes *)

Lemma processed_world this runId screenshot w o w' :
  processed this runId screenshot w o w' →
  (Outcome.status o = "new" ∧ Outcome.diff o = None ∧
   ∃ f, files w !! screenshot = Some (Regular f) ∧
        (∀ f', files w !! baselinePathOf this screenshot ≠ Some (Regular f')) ∧
        w' = write (baselinePathOf this screenshot) (body f) w)
  ∨ (Outcome.status o = "error" ∧ Outcome.diff o = None ∧ w' = w).
Proof.
  destruct 1 as [f Hex Hs Hwr|e Hex Hcp|e Hex Hc].
  - left. repeat split. exists f. repeat split; [done|].
    intros f' Hf'. unfold returns in Hex. rewrite fileExists_eq, Hf' in Hex. discriminate.
  - right. done.
  - right. done.
Qed.

(** a file that is there before a pass is left as it is *)
Lemma processed_frame this runId screenshot w o w' p f :
  processed this runId screenshot w o w' →
  files w !! p = Some (Regular f) → files w' !! p = Some (Regular f).
Proof.
  intros Hp Hf.
  destruct (processed_world _ _ _ _ _ _ Hp) as [(_ & _ & f0 & _ & Hnb & ->)|(_ & _ & ->)];
    try done; unfold write, set_files; simpl.
  rewrite lookup_insert_ne; [done|]. intros <-. by eapply Hnb.
Qed.

Lemma processed_all_frame this runId screenshots w os w' p f :
  processed_all this runId screenshots w os w' →
  files w !! p = Some (Regular f) → files w' !! p = Some (Regular f).
Proof.
  induction 1 as [|s rest w o w1 os w2 Hp Hall IH]; intros Hf; [done|].
  apply IH. eapply processed_frame; eauto.
Qed.

(** what a run changes: the baseline paths of its [new] outcomes *)
Lemma processed_all_changes this runId screenshots w os w' p :
  processed_all this runId screenshots w os w' →
  (∀ i s o, screenshots !! i = Some s → os !! i = Some o →
            Outcome.status o = "new" → p ≠ baselinePathOf this s) →
  files w' !! p = files w !! p.
Proof.
  induction 1 as [|s rest w o w1 os w2 Hp Hall IH]; intros Hnew; [done|].
  rewrite IH by (intros i s' o' Hs Ho; exact (Hnew (S i) s' o' Hs Ho)).
  destruct (processed_world _ _ _ _ _ _ Hp) as [(Hst & _ & f0 & _ & _ & ->)|(_ & _ & ->)];
    [|done].
  unfold write, set_files. simpl. rewrite lookup_insert_ne; [done|].
  intros <-. by eapply (Hnew 0%nat s o).
Qed.

Lemma processed_all_nth this runId screenshots w os w' i o :
  processed_all this runId screenshots w os w' → os !! i = Some o →
  ∃ screenshot wi wi',
    screenshots !! i = Some screenshot ∧
    processed this runId screenshot wi o wi' ∧
    ∀ p f, files wi' !! p = Some (Regular f) → ∃ f', files w' !! p = Some (Regular f').
Proof.
  intros Hall. revert i.
  induction Hall as [|s rest w o1 w1 os w2 Hp Hall IH]; intros i Hi; [done|].
  destruct i as [|i]; simpl in *.
  - injection Hi as ->. exists s, w, w1. repeat split; [done|].
    intros p f Hf. eapply processed_all_keeps_files; eauto.
  - destruct (IH i Hi) as (s' & wi & wi' & ? & ? & ?). eauto 6.
Qed.

(** C6, as amended: a pass whose outcome is [passed] or [error] has
    written nothing, a pass whose outcome is [new] has written the baseline
    only, and the [diff] field of these outcomes is null; a run changes no
    path but the baseline paths of its [new] outcomes. The record built
    from a comparison that does not pass has status [failed] and carries
    [<reportsDir>/diffs/<runId>-<filename>] in its [diff] field; the one
    built from a comparison that passes has status [passed] and no
    [diff]. *)
Theorem no_diff_artifact_unless_failed (reports runId : string) :
  let this := constructor reports in
  let artifact screenshot :=
    path_join [path_join [reports; "diffs"]; runId ++ "-" ++ path_basename screenshot] in
  (∀ (screenshot : string) (c : ImageDiff.t),
     let o := outcome_compared this runId screenshot c in
     if ImageDiff.passed c
     then Outcome.status o = "passed" ∧ Outcome.diff o = None
     else Outcome.status o = "failed" ∧ Outcome.diff o = Some (artifact screenshot)) ∧
  (∀ (r : Summary.t) (screenshot : string) (w : world),
     ∃ o w',
       returns (iteration this runId r screenshot) w (recorded r o) w' ∧
       (Outcome.status o = "passed" ∨ Outcome.status o = "error" →
          Outcome.diff o = None ∧ w' = w) ∧
       (Outcome.status o = "new" →
          Outcome.diff o = None ∧
          ∃ f, files w !! screenshot = Some (Regular f) ∧
               w' = write (baselinePathOf this screenshot) (body f) w)) ∧
  (∀ (screenshots : list string) (w : world),
     ∃ r w',
       returns (compareScreenshots this screenshots runId) w r w' ∧
       (∀ i o, Summary.comparisons r !! i = Some o →
               Outcome.status o ≠ "failed" → Outcome.diff o = None) ∧
       (∀ p, (∀ i s o, screenshots !! i = Some s →
                       Summary.comparisons r !! i = Some o →
                       Outcome.status o = "new" → p ≠ baselinePathOf this s) →
             files w' !! p = files w !! p)).
Proof.
  intros this artifact. split; [|split].
  - intros screenshot c. simpl. destruct (ImageDiff.passed c); done.
  - intros r screenshot w.
    destruct (iteration_processed this runId r screenshot w) as (o & w' & Hit & Hp).
    exists o, w'. split; [exact Hit|].
    destruct (processed_world _ _ _ _ _ _ Hp)
      as [(Hst & Hd & f & Hf & _ & Hw)|(Hst & Hd & Hw)];
      rewrite Hst; split; try (intros; done); try (intros [|]; done); eauto.
  - intros screenshots w.
    destruct (compareScreenshots_processed this runId screenshots w)
      as (os & w' & Hret & Hall).
    eexists _, w'. split; [exact Hret|].
    rewrite recorded_comparisons. simpl. split.
    + intros i o Hi _.
      destruct (processed_all_nth _ _ _ _ _ _ _ _ Hall Hi)
        as (screenshot & wi & wi' & Hs & Hp & Hkeep).
      by destruct (processed_world _ _ _ _ _ _ Hp) as [(_ & Hd & _)|(_ & Hd & _)].
    + intros p Hnew. eapply processed_all_changes; eauto.
Qed.

(** C9: a baseline that exists before a run is the same file after it,
    content and time of modification, whatever the run compares with it
    and whatever the run identifier is. *)
Theorem baseline_not_written this (runId filename : string) (f : file)
        (screenshots : list string) (w : world) :
  files w !! path_join [baselineDir this; filename] = Some (Regular f) →
  ∃ r w',
    returns (compareScreenshots this screenshots runId) w r w' ∧
    files w' !! path_join [baselineDir this; filename] = Some (Regular f).
Proof.
  intros Hf.
  destruct (compareScreenshots_processed this runId screenshots w)
    as (os & w' & Hret & Hall).
  eexists _, w'. split; [exact Hret|].
  eapply processed_all_frame; eauto.
Qed.

(** *** The clean-up *)

Section Cleanup.
Variable this : VisualRegressionTester.

Lemma older_than_0 (now : Z) (f : file) :
  older_than now (JS.Num 0) f = true ↔ (mtime f < now)%Z.
Proof.
  unfold older_than, JS.gt, JS.lt, JS.sub_Z, JS.of_Z, JS.Qltb. simpl.
  rewrite Z.ltb_lt. lia.
Qed.

Lemma older_than_infinity (now : Z) (f : file) :
  older_than now (JS.Inf false) f = false.
Proof. reflexivity. Qed.

(** with an infinite [maxAge] the scan removes nothing, whether it
    completes or stops at a failure *)
Lemma cleanup_loop_infinity now names w :
  snd (cleanup_loop this now (JS.Inf false) names w) = w.
Proof.
  revert w. induction names as [|n names IH]; intros w; [done|].
  simpl. run. unfold stat.
  destruct (files w !! path_join [diffDir this; n]) as [[f|c]|]; [|done|done].
  change (JS.gt (JS.sub_Z now (mtime f)) (JS.Inf false)) with false.
  apply IH.
Qed.

Lemma cleanup_loop_unhindered now maxAge names w :
  NoDup ((λ n, path_join [diffDir this; n]) <$> names) →
  (∀ n, n ∈ names → ∃ f, files w !! path_join [diffDir this; n] = Some (Regular f)) →
  ∃ w', returns (cleanup_loop this now maxAge names) w () w' ∧
        clock w' = clock w ∧
        ∀ k, files w' !! k =
             match files w !! k with
             | Some (Regular f) =>
                 if decide (k ∈ (λ n, path_join [diffDir this; n]) <$> names)
                 then if older_than now maxAge f then None else Some (Regular f)
                 else Some (Regular f)
             | x => x
             end.
Proof.
  revert w. induction names as [|n names IH]; intros w Hnd Hreg.
  - exists w. repeat split. intros k.
    destruct (files w !! k) as [[f|c]|]; try done.
  - rewrite fmap_cons in Hnd. apply NoDup_cons in Hnd as [Hnotin Hnd].
    destruct (Hreg n) as [f Hf]; [by left|].
    set (p := path_join [diffDir this; n]) in *.
    set (w1 := if older_than now maxAge f
               then set_files (delete p (files w)) w else w).
    assert (Hstep : ∀ k, k ≠ p → files w1 !! k = files w !! k).
    { intros k Hk. unfold w1. destruct (older_than now maxAge f); [|done].
      simpl. by rewrite lookup_delete_ne. }
    destruct (IH w1 Hnd) as (w' & Hret & Hclock & Hfiles).
    { intros n' Hn'. destruct (Hreg n') as [f' Hf']; [by right|].
      exists f'. rewrite Hstep; [done|].
      intros Heq. apply Hnotin. apply list_elem_of_fmap. by exists n'. }
    exists w'. split; [|split].
    + simpl. run. unfold stat. fold p. rewrite Hf. simpl.
      fold (older_than now maxAge f). unfold w1 in Hret.
      destruct (older_than now maxAge f); simpl.
      * unfold unlink. rewrite Hf. exact Hret.
      * exact Hret.
    + rewrite Hclock. unfold w1. by destruct (older_than now maxAge f).
    + intros k. rewrite Hfiles, fmap_cons. fold p.
      destruct (decide (k = p)) as [->|Hk].
      * rewrite Hf. rewrite decide_True by (by left).
        unfold w1. destruct (older_than now maxAge f) eqn:Hold; simpl.
        -- by rewrite lookup_delete_eq.
        -- rewrite Hf. by rewrite decide_False.
      * rewrite (Hstep k Hk).
        destruct (files w !! k) as [[fk|c]|]; try done.
        destruct (decide (k ∈ _ <$> names)) as [Hin|Hin].
        -- rewrite decide_True by (by right). done.
        -- rewrite decide_False; [done|]. intros [?|?]%elem_of_cons; done.
Qed.

Lemma elem_of_entries_of dir (m : gmap string entry) k :
  k ∈ entries_of dir m ↔ path_dirname k = dir ∧ is_Some (m !! k).
Proof.
  unfold entries_of. rewrite list_elem_of_filter, list_elem_of_fmap.
  split.
  - intros (Hd & [k' e] & -> & Hin). apply elem_of_map_to_list in Hin.
    split; [done|]. by exists e.
  - intros (Hd & e & He). split; [done|].
    exists (k, e). split; [done|]. by apply elem_of_map_to_list.
Qed.

Lemma entries_paths w :
  scan_unhindered this w →
  (λ n, path_join [diffDir this; n]) <$>
    (path_basename <$> entries_of (diffDir this) (files w))
  = entries_of (diffDir this) (files w).
Proof.
  intros [_ Hpaths]. rewrite <- list_fmap_compose.
  rewrite <- (list_fmap_id (entries_of (diffDir this) (files w))) at 2.
  apply list_fmap_ext. intros i k Hk. simpl.
  apply list_elem_of_lookup_2 in Hk.
  apply elem_of_entries_of in Hk as [Hd [e He]].
  by destruct (Hpaths k e He Hd).
Qed.

(** the names of a listing, joined with the directory, are its paths *)
Lemma listing_paths w :
  scan_unhindered this w →
  (λ n, path_join [diffDir this; n]) <$>
    merge_sort name_le (path_basename <$> entries_of (diffDir this) (files w))
  ≡ₚ entries_of (diffDir this) (files w).
Proof.
  intros Hun. rewrite merge_sort_Permutation. by rewrite entries_paths.
Qed.

Lemma cleanupOldDiffs_returns maxAge w :
  ∃ w', returns (cleanupOldDiffs this maxAge) w () w' ∧ clock w' = clock w.
Proof.
  unfold cleanupOldDiffs, readdir, Date_now. run.
  destruct (files w !! diffDir this) as [[f|c]|]; try (by exists w).
  assert (Hclock : ∀ now names w0,
             clock (snd (cleanup_loop this now maxAge names w0)) = clock w0).
  { intros now names. induction names as [|n names IH]; intros w0; [done|].
    simpl. run. unfold stat.
    destruct (files w0 !! path_join [diffDir this; n]) as [[f|c]|]; try done.
    destruct (JS.gt _ _); simpl; [|apply IH].
    unfold unlink.
    destruct (files w0 !! path_join [diffDir this; n]) as [[f'|c]|]; try done.
    rewrite IH. done. }
  specialize (Hclock (clock w)
                (merge_sort name_le (path_basename <$> entries_of (diffDir this) (files w))) w).
  destruct (cleanup_loop _ _ _ _ _) as [[e|[]] w']; simpl in Hclock; eauto.
Qed.

End Cleanup.

Lemma cleanup_unhindered_files this (maxAge : JS.number) (w : world) :
  scan_unhindered this w →
  ∃ w', returns (cleanupOldDiffs this maxAge) w () w' ∧
        clock w' = clock w ∧
        ∀ k, files w' !! k =
             match files w !! k with
             | Some (Regular f) =>
                 if decide (path_dirname k = diffDir this)
                 then if older_than (clock w) maxAge f
                      then None else Some (Regular f)
                 else Some (Regular f)
             | x => x
             end.
Proof.
  intros Hun.
  pose proof (listing_paths this w Hun) as Hpaths.
  destruct (cleanup_loop_unhindered this (clock w) maxAge
              (merge_sort name_le (path_basename <$> entries_of (diffDir this) (files w)))
              w)
    as (w' & Hret & Hclock & Hfiles).
  - rewrite Hpaths. unfold entries_of.
    apply NoDup_filter, NoDup_fst_map_to_list.
  - intros n Hn. rewrite merge_sort_Permutation in Hn.
    apply list_elem_of_fmap in Hn as (k & -> & Hk).
    apply elem_of_entries_of in Hk as [Hd [e He]].
    destruct Hun as [_ Hun]. destruct (Hun k e He Hd) as [-> Hr].
    destruct e; [eauto|discriminate].
  - exists w'. split; [|split; [done|]].
    + destruct Hun as [Hdir _].
      unfold cleanupOldDiffs, readdir, Date_now. run. rewrite Hdir.
      run. rewrite Hret. done.
    + intros k. rewrite Hfiles.
      destruct (files w !! k) as [[f|c]|] eqn:Hk; try done.
      destruct (decide (path_dirname k = diffDir this)) as [Hd|Hd].
      * rewrite decide_True; [done|]. rewrite Hpaths. apply elem_of_entries_of. eauto.
      * rewrite decide_False; [done|]. rewrite Hpaths, elem_of_entries_of. tauto.
Qed.

(** C7, as amended: [cleanupOldDiffs] never throws. When the diff
    directory can be listed, holds files only, and every file in it can be
    examined and removed, it removes exactly the files of the directory
    with [now - mtime > maxAge] and leaves every other path as it is: with
    [maxAge] 0 those last modified before [now], with an infinite [maxAge]
    none. With an infinite [maxAge] it removes nothing in any world. *)
Theorem cleanup_removes_old this :
  (∀ (maxAge : JS.number) (w : world),
     ∃ w', returns (cleanupOldDiffs this maxAge) w () w') ∧
  (∀ (maxAge : JS.number) (w : world),
     scan_unhindered this w → flat (diffDir this) (files w) →
     ∃ w', returns (cleanupOldDiffs this maxAge) w () w' ∧
           ∀ k, files w' !! k =
                match files w !! k with
                | Some (Regular f) =>
                    if decide (path_dirname k = diffDir this)
                    then if older_than (clock w) maxAge f
                         then None else Some (Regular f)
                    else Some (Regular f)
                | x => x
                end) ∧
  (∀ (now : Z) (f : file),
     (older_than now (JS.Num 0) f = true ↔ (mtime f < now)%Z) ∧
     older_than now (JS.Inf false) f = false) ∧
  (∀ (w : world), returns (cleanupOldDiffs this (JS.Inf false)) w () w).
Proof.
  split; [|split; [|split]].
  - intros maxAge w.
    destruct (cleanupOldDiffs_returns this maxAge w) as (w' & Hret & _). eauto.
  - intros maxAge w Hun _.
    destruct (cleanup_unhindered_files this maxAge w Hun) as (w' & Hret & _ & Hfiles).
    eauto.
  - intros now f. split; [apply older_than_0|apply older_than_infinity].
  - intros w. unfold cleanupOldDiffs, readdir, Date_now. run.
    destruct (files w !! diffDir this) as [[f|c]|]; try done.
    pose proof (cleanup_loop_infinity this (clock w)
                  (merge_sort name_le
                     (path_basename <$> entries_of (diffDir this) (files w))) w) as Hsnd.
    destruct (cleanup_loop _ _ _ _ _) as [[e|[]] w']; simpl in Hsnd; by subst.
Qed.

(** *** The report *)

(** the report is the header, the rows of the outcomes in their order,
    the recommendations and the footer, written at the report path *)
Lemma report_written this (r : Summary.t) (runId : string) (w : world) :
  let reportPath := path_join [reportsDir this; "visual-regression-report.md"] in
  writable (files w) reportPath →
  returns (generateVisualRegressionReport this r runId) w reportPath
          (write reportPath
             (Raw (list_byte_of_string
                     (report_header r runId (clock w) ++
                      String.concat "" (map report_row (Summary.comparisons r)) ++
                      recommendations r ++ report_footer this))) w).
Proof.
  intros reportPath Hwr.
  unfold generateVisualRegressionReport, writeFile, Date_now, returns.
  fold reportPath. run.
  destruct (files w !! reportPath) as [[f|c]|] eqn:Hp; try done.
  by destruct (Hwr c).
Qed.

(** C10: the report file holds, between the header of the table and the
    recommendations, one row for each outcome of the summary, in their
    order. In a row the [Diff %] cell is the third one. It reads [N/A]
    when [diffPercentage] is 0, as it is for every [new] outcome and for
    every comparison without a differing pixel. It reads the number
    rounded to two decimals, followed by a percent sign, when
    [diffPercentage] is a nonzero number (below 1e21); [q] is the exact
    value of the number. *)
Theorem diff_percent_column this (comparisonResults : Summary.t) (runId : string)
        (w : world) :
  let reportPath := path_join [reportsDir this; "visual-regression-report.md"] in
  (writable (files w) reportPath →
   ∃ w',
     returns (generateVisualRegressionReport this comparisonResults runId) w
             reportPath w' ∧
     files w' !! reportPath =
       Some (Regular
               {| body :=
                    Raw (list_byte_of_string
                           (report_header comparisonResults runId (clock w) ++
                            String.concat ""
                              (map report_row (Summary.comparisons comparisonResults)) ++
                            recommendations comparisonResults ++ report_footer this));
                  mtime := clock w |})) ∧
  ∀ comparison : Outcome.t,
    report_row comparison =
      "| " ++ Outcome.filename comparison ++
      " | " ++ status_glyph (Outcome.status comparison) ++
      " | " ++ diffPercent comparison ++
      " | " ++ link "Baseline" (Outcome.baseline comparison) ++
      " | " ++ link "Current" (Outcome.current comparison) ++
      " | " ++ diffLink comparison ++ " |" ++ nl ∧
    (∀ q, Outcome.diffPercentage comparison = JS.Num q → (q == 0)%Q →
          diffPercent comparison = "N/A") ∧
    (∀ screenshot, comparison = outcome_new this screenshot →
          diffPercent comparison = "N/A") ∧
    (∀ n, Outcome.diffPercentage comparison =
            JS.mul (JS.div (JS.of_N 0) (JS.of_N n)) (JS.of_N 100) →
          diffPercent comparison = "N/A") ∧
    (∀ q, Outcome.diffPercentage comparison = JS.Num q → ¬ (q == 0)%Q →
          (Qabs q < 10 ^ 21)%Q →
          let n := Z.to_N (Qfloor (Qabs q * 100 + (1 # 2))) in
          (inject_Z (Z.of_N n) <= Qabs q * 100 + (1 # 2) < inject_Z (Z.of_N n) + 1)%Q ∧
          diffPercent comparison =
            ((if JS.Qltb q 0 then "-" else "") ++ pretty (n / 100)%N ++ "." ++
             JS.digit (n / 10) ++ JS.digit n) ++ "%").
Proof.
  intros reportPath. split.
  { intros Hwr. eexists. split; [exact (report_written this _ runId w Hwr)|].
    unfold write, set_files. simpl. by rewrite lookup_insert_eq. }
  intros comparison.
  split; [reflexivity|]. unfold diffPercent.
  split; [|split; [|split]].
  - intros q -> Hq. apply is_zero_eq in Hq. simpl. by rewrite Hq.
  - intros screenshot ->. reflexivity.
  - intros n ->. by rewrite percentage_of_none.
  - intros q Hpct Hq Hbound.
    destruct (toFixed_2_finite toString q Hbound) as [Hround Hfix].
    split; [exact Hround|].
    rewrite Hpct. simpl.
    destruct (JS.is_zero q) eqn:Hz; [apply is_zero_eq in Hz; contradiction|].
    simpl. by rewrite Hfix.
Qed.

(** *** More on the runs *)

(** a pass writes at most one file, at a path where none is failing *)
Lemma processed_writes this runId screenshot w o w' :
  processed this runId screenshot w o w' →
  w' = w ∨ ∃ q c, writable (files w) q ∧ w' = write q c w.
Proof. destruct 1 as [f Hex Hs Hwr|e Hex Hcp|e Hex Hc]; eauto. Qed.

Lemma processed_fields this runId screenshot w o w' :
  processed this runId screenshot w o w' →
  Outcome.filename o = path_basename screenshot ∧
  Outcome.current o = screenshot ∧
  Outcome.baseline o = baselinePathOf this screenshot.
Proof. destruct 1; done. Qed.

(** X1: the outcomes of a run follow its input: the i-th outcome carries
    the base name of the i-th screenshot as [filename], the screenshot
    itself as [current] and its baseline path as [baseline]. *)
Theorem outcomes_follow_input this (screenshots : list string) (runId : string)
        (w : world) :
  ∃ r w',
    returns (compareScreenshots this screenshots runId) w r w' ∧
    Outcome.filename <$> Summary.comparisons r = path_basename <$> screenshots ∧
    Outcome.current <$> Summary.comparisons r = screenshots ∧
    Outcome.baseline <$> Summary.comparisons r = baselinePathOf this <$> screenshots.
Proof.
  destruct (compareScreenshots_processed this runId screenshots w)
    as (os & w' & Hret & Hall).
  eexists _, w'. split; [exact Hret|].
  rewrite recorded_comparisons. simpl. clear Hret.
  induction Hall as [|s rest w0 o w1 os w2 Hp Hall IH]; [done|].
  destruct (processed_fields _ _ _ _ _ _ Hp) as (Hf & Hc & Hb).
  destruct IH as (IHf & IHc & IHb).
  csimpl. rewrite Hf, Hc, Hb, IHf, IHc, IHb. done.
Qed.

Lemma processed_world_kept this runId screenshot w o w' :
  processed this runId screenshot w o w' →
  clock w' = clock w ∧
  ∀ p,
    (∀ f, files w !! p = Some (Regular f) → ∃ f', files w' !! p = Some (Regular f')) ∧
    (∀ c, files w' !! p = Some (Failing c) ↔ files w !! p = Some (Failing c)) ∧
    (files w' !! p = None → files w !! p = None).
Proof.
  intros Hp. destruct (processed_writes _ _ _ _ _ _ Hp) as [->|(q & c & Hwr & ->)].
  - split; [done|]. intros p. split; [eauto|]. split; done.
  - split; [done|]. intros p. unfold write, set_files. simpl.
    destruct (decide (q = p)) as [->|Hne].
    + rewrite lookup_insert_eq. split; [eauto|]. split; [|done].
      intros c0. split; [done|]. intros Hc0. by destruct (Hwr c0).
    + rewrite lookup_insert_ne by done. split; [eauto|]. split; done.
Qed.

Lemma processed_all_world_kept this runId screenshots w os w' :
  processed_all this runId screenshots w os w' →
  clock w' = clock w ∧
  ∀ p,
    (∀ f, files w !! p = Some (Regular f) → ∃ f', files w' !! p = Some (Regular f')) ∧
    (∀ c, files w' !! p = Some (Failing c) ↔ files w !! p = Some (Failing c)) ∧
    (files w' !! p = None → files w !! p = None).
Proof.
  induction 1 as [|s rest w o w1 os w2 Hp Hall IH].
  - split; [done|]. intros p. split; [eauto|]. split; done.
  - destruct (processed_world_kept _ _ _ _ _ _ Hp) as [Hc1 H1].
    destruct IH as [Hc2 H2]. split; [congruence|].
    intros p. destruct (H1 p) as (Hr1 & Hf1 & Hn1). destruct (H2 p) as (Hr2 & Hf2 & Hn2).
    split; [|split].
    + intros f Hf. destruct (Hr1 f Hf) as [f1 Hf1']. eauto.
    + intros c. rewrite Hf2. apply Hf1.
    + eauto.
Qed.

(** X2: a run only adds and overwrites files. A path that holds a file
    before the run holds one after it, a path that could not be used before
    is the same after it and no other such path appears, a path that is
    free after the run was free before, and the clock is not touched. *)
Theorem run_removes_nothing this (screenshots : list string) (runId : string)
        (w : world) :
  ∃ r w',
    returns (compareScreenshots this screenshots runId) w r w' ∧
    clock w' = clock w ∧
    ∀ p,
      (∀ f, files w !! p = Some (Regular f) → ∃ f', files w' !! p = Some (Regular f')) ∧
      (∀ c, files w' !! p = Some (Failing c) ↔ files w !! p = Some (Failing c)) ∧
      (files w' !! p = None → files w !! p = None).
Proof.
  destruct (compareScreenshots_processed this runId screenshots w)
    as (os & w' & Hret & Hall).
  eexists _, w'. split; [exact Hret|].
  eapply processed_all_world_kept; eauto.
Qed.

(** a pass adopts only at a free baseline path *)
Lemma processed_new_free this runId screenshot w o w' :
  processed this runId screenshot w o w' →
  Outcome.status o = "new" → files w !! baselinePathOf this screenshot = None.
Proof.
  intros Hp Hst.
  destruct (processed_world _ _ _ _ _ _ Hp)
    as [(_ & _ & f & _ & Hnb & ->)|(Hst' & _)];
    try (rewrite Hst' in Hst; discriminate).
  destruct Hp as [f0 Hex Hs Hwr|e Hex Hcp|e Hex Hc]; try discriminate.
  destruct (files w !! baselinePathOf this screenshot) as [[fb|cb]|] eqn:Hb; [| |done].
  - by destruct (Hnb fb).
  - by destruct (Hwr cb).
Qed.

Lemma processed_all_new_free this runId screenshots w os w' i s o :
  processed_all this runId screenshots w os w' →
  screenshots !! i = Some s → os !! i = Some o →
  Outcome.status o = "new" → files w !! baselinePathOf this s = None.
Proof.
  intros Hall. revert i.
  induction Hall as [|s0 rest w0 o0 w1 os w2 Hp Hall IH]; intros i Hs Ho Hst; [done|].
  destruct i as [|i]; simpl in *.
  - injection Hs as ->. injection Ho as ->. eapply processed_new_free; eauto.
  - destruct (processed_world_kept _ _ _ _ _ _ Hp) as [_ Hk].
    destruct (Hk (baselinePathOf this s)) as (_ & _ & Hn).
    apply Hn. eapply IH; eauto.
Qed.

(** X3: a baseline is adopted once. A screenshot whose baseline path is
    taken before the run, by a file or by a path that cannot be used, never
    gets the outcome [new], wherever it stands in the list. *)
Theorem taken_baseline_not_adopted this (screenshots : list string) (runId : string)
        (w : world) :
  ∃ r w',
    returns (compareScreenshots this screenshots runId) w r w' ∧
    ∀ i s o,
      screenshots !! i = Some s → Summary.comparisons r !! i = Some o →
      is_Some (files w !! baselinePathOf this s) →
      Outcome.status o ≠ "new".
Proof.
  destruct (compareScreenshots_processed this runId screenshots w)
    as (os & w' & Hret & Hall).
  eexists _, w'. split; [exact Hret|].
  intros i s o Hs Ho [e He] Hst.
  rewrite recorded_comparisons in Ho. simpl in Ho.
  rewrite (processed_all_new_free _ _ _ _ _ _ _ _ _ Hall Hs Ho Hst) in He.
  discriminate.
Qed.

(** *** First and second runs *)

Lemma copyFile_throws_inv src dest w e w' f :
  throws (copyFile src dest) w e w' → files w !! src = Some (Regular f) →
  ∃ c, files w !! dest = Some (Failing c).
Proof.
  unfold copyFile, throws. intros Hthrow Hs. rewrite Hs in Hthrow.
  destruct (files w !! dest) as [[fd|cd]|]; try discriminate. eauto.
Qed.

(** after a pass on a capture that is a file, its baseline path is taken *)
Lemma processed_takes_baseline this runId screenshot w o w' f :
  processed this runId screenshot w o w' →
  files w !! screenshot = Some (Regular f) →
  is_Some (files w' !! baselinePathOf this screenshot).
Proof.
  intros Hp Hs. pose proof (processed_world_kept _ _ _ _ _ _ Hp) as [_ Hk].
  destruct Hp as [f0 Hex Hs0 Hwr|e Hex Hcp|e Hex Hc].
  - unfold write, set_files. simpl. rewrite lookup_insert_eq. eauto.
  - destruct (copyFile_throws_inv _ _ _ _ _ _ Hcp Hs) as [c ->]. eauto.
  - unfold returns in Hex. rewrite fileExists_eq in Hex.
    destruct (files w !! baselinePathOf this screenshot) as [[fb|cb]|] eqn:Hb;
      try discriminate. eauto.
Qed.

Lemma is_Some_kept (w w' : world) p :
  (∀ f, files w !! p = Some (Regular f) → ∃ f', files w' !! p = Some (Regular f')) →
  (∀ c, files w' !! p = Some (Failing c) ↔ files w !! p = Some (Failing c)) →
  is_Some (files w !! p) → is_Some (files w' !! p).
Proof.
  intros Hr Hf [[f|c] He].
  - destruct (Hr f He) as [f' ->]. eauto.
  - apply Hf in He. rewrite He. eauto.
Qed.

Lemma processed_all_takes_baselines this runId screenshots w os w' :
  processed_all this runId screenshots w os w' →
  Forall (λ s, ∃ f, files w !! s = Some (Regular f)) screenshots →
  Forall (λ s, is_Some (files w' !! baselinePathOf this s)) screenshots.
Proof.
  induction 1 as [|s rest w o w1 os w2 Hp Hall IH]; intros Hreg; [constructor|].
  inversion Hreg as [|? ? [f Hf] Hrest]; subst.
  pose proof (processed_world_kept _ _ _ _ _ _ Hp) as [_ Hk1].
  pose proof (processed_all_world_kept _ _ _ _ _ _ Hall) as [_ Hk2].
  constructor.
  - destruct (Hk2 (baselinePathOf this s)) as (Hr & Hfl & _).
    eapply is_Some_kept; eauto. eapply processed_takes_baseline; eauto.
  - apply IH. eapply Forall_impl; [exact Hrest|].
    intros s' [f' Hf']. destruct (Hk1 s') as (Hr & _ & _). eauto.
Qed.

Lemma count_status_none s (os : list Outcome.t) :
  (∀ i o, os !! i = Some o → Outcome.status o ≠ s) → count_status s os = 0%N.
Proof.
  unfold count_status. induction os as [|o os IH]; intros Hno; [done|].
  rewrite filter_cons. destruct (decide (Outcome.status o = s)) as [Hs|Hs].
  - by destruct (Hno 0%nat o eq_refl).
  - apply IH. intros i o' Ho'. apply (Hno (S i) o' Ho').
Qed.

(** X5: a second run over the same captures adopts nothing. When every
    screenshot of the list is a file, the run leaves each baseline path
    taken, and a run that follows on the same list, under any run
    identifier, counts no [new] outcome. *)
Theorem second_run_adopts_nothing this (screenshots : list string)
        (runId runId' : string) (w : world) :
  Forall (λ s, ∃ f, files w !! s = Some (Regular f)) screenshots →
  ∃ r1 w1 r2 w2,
    returns (compareScreenshots this screenshots runId) w r1 w1 ∧
    returns (compareScreenshots this screenshots runId') w1 r2 w2 ∧
    Summary.new r2 = 0%N ∧
    ∀ o, o ∈ Summary.comparisons r2 → Outcome.status o ≠ "new".
Proof.
  intros Hreg.
  destruct (compareScreenshots_processed this runId screenshots w)
    as (os1 & w1 & Hret1 & Hall1).
  destruct (compareScreenshots_processed this runId' screenshots w1)
    as (os2 & w2 & Hret2 & Hall2).
  eexists _, w1, _, w2. split; [exact Hret1|]. split; [exact Hret2|].
  pose proof (processed_all_takes_baselines _ _ _ _ _ _ Hall1 Hreg) as Htaken.
  assert (Hno : ∀ i o, os2 !! i = Some o → Outcome.status o ≠ "new").
  { intros i o Ho Hst.
    destruct (processed_all_nth _ _ _ _ _ _ _ _ Hall2 Ho) as (s & _ & _ & Hs & _).
    pose proof (processed_all_new_free _ _ _ _ _ _ _ _ _ Hall2 Hs Ho Hst) as Hfree.
    rewrite Forall_forall in Htaken.
    destruct (Htaken s) as [e He]; [eapply list_elem_of_lookup_2; eauto|].
    congruence. }
  destruct (processed_all_counters _ _ _ _ _ _ empty_results Hall2)
    as (_ & _ & _ & Hn & _); [reflexivity|repeat split; reflexivity|].
  rewrite recorded_comparisons in *. simpl in *. split.
  - rewrite Hn. by apply count_status_none.
  - intros o [i Ho]%list_elem_of_lookup_1. eauto.
Qed.

Lemma recorded_new_counters this (screenshots : list string) r :
  let r' := fold_left recorded (outcome_new this <$> screenshots) r in
  Summary.total r' = (Summary.total r + N.of_nat (length screenshots))%N ∧
  Summary.new r' = (Summary.new r + N.of_nat (length screenshots))%N ∧
  Summary.passed r' = Summary.passed r ∧
  Summary.failed r' = Summary.failed r.
Proof.
  revert r. induction screenshots as [|s rest IH]; intros r; cbv zeta.
  - simpl. repeat split; lia.
  - specialize (IH (recorded r (outcome_new this s))). cbv zeta in IH.
    rewrite fmap_cons. cbn [fold_left].
    destruct IH as (Ht & Hn & Hp & Hf).
    rewrite Ht, Hn, Hp, Hf. unfold recorded, tally. simpl.
    rewrite Nat2N.inj_succ. repeat split; lia.
Qed.

Lemma for_of_adopts_all this runId (screenshots : list string) r w :
  Forall (λ s, ∃ f, files w !! s = Some (Regular f)) screenshots →
  Forall (λ s, files w !! baselinePathOf this s = None) screenshots →
  NoDup (baselinePathOf this <$> screenshots) →
  ∃ w',
    returns (for_of this runId screenshots r) w
            (fold_left recorded (outcome_new this <$> screenshots) r) w' ∧
    clock w' = clock w ∧
    (∀ p, p ∉ baselinePathOf this <$> screenshots → files w' !! p = files w !! p) ∧
    (∀ s f, s ∈ screenshots → files w !! s = Some (Regular f) →
            files w' !! baselinePathOf this s =
              Some (Regular {| body := body f; mtime := clock w |})).
Proof.
  revert r w. induction screenshots as [|s rest IH]; intros r w Hreg Hfree Hnd.
  - exists w. repeat split; try done. intros s f Hs. by apply elem_of_nil in Hs.
  - inversion Hreg as [|? ? [f Hf] Hreg']; subst.
    inversion Hfree as [|? ? Hb Hfree']; subst.
    rewrite fmap_cons in Hnd. apply NoDup_cons in Hnd as [Hnotin Hnd].
    pose proof (iteration_adopts this runId r s w f Hf Hb) as Hit.
    set (w1 := write (baselinePathOf this s) (body f) w) in *.
    assert (Hother : ∀ p, p ≠ baselinePathOf this s → files w1 !! p = files w !! p).
    { intros p Hp. unfold w1, write, set_files. simpl. by rewrite lookup_insert_ne. }
    destruct (IH (recorded r (outcome_new this s)) w1) as (w' & Hret & Hclock & Hout & Hin).
    + eapply Forall_impl; [exact Hreg'|]. intros s' [f' Hf'].
      exists f'. rewrite Hother; [done|]. intros ->. congruence.
    + rewrite Forall_forall in Hfree'. apply Forall_forall. intros s' Hs'.
      rewrite Hother; [by apply Hfree'|].
      intros Heq. apply Hnotin. rewrite <- Heq. apply list_elem_of_fmap. by exists s'.
    + done.
    + exists w'. split; [|split; [|split]].
      * simpl. run. rewrite Hit. exact Hret.
      * by rewrite Hclock.
      * intros p Hp. rewrite fmap_cons in Hp. apply not_elem_of_cons in Hp as [Hp1 Hp2].
        rewrite Hout by done. by apply Hother.
      * intros s0 f0 Hs0 Hf0. apply elem_of_cons in Hs0 as [->|Hs0].
        -- rewrite Hout by done. unfold w1, write, set_files. simpl.
           rewrite lookup_insert_eq. congruence.
        -- rewrite (Hin s0 f0 Hs0); [done|].
           rewrite Hother; [done|]. intros ->. congruence.
Qed.

(** X4: a first run adopts everything. When every screenshot is a file,
    no baseline path is taken and no two screenshots share a baseline path,
    every outcome is [new], the summary counts [total = new] and
    [passed = failed = 0], each baseline holds the content of its capture,
    and no other path is touched. *)
Theorem first_run_adopts_all this (screenshots : list string) (runId : string)
        (w : world) :
  Forall (λ s, ∃ f, files w !! s = Some (Regular f)) screenshots →
  Forall (λ s, files w !! baselinePathOf this s = None) screenshots →
  NoDup (baselinePathOf this <$> screenshots) →
  ∃ r w',
    returns (compareScreenshots this screenshots runId) w r w' ∧
    Summary.comparisons r = outcome_new this <$> screenshots ∧
    Summary.total r = N.of_nat (length screenshots) ∧
    Summary.new r = N.of_nat (length screenshots) ∧
    Summary.passed r = 0%N ∧ Summary.failed r = 0%N ∧
    (∀ s f, s ∈ screenshots → files w !! s = Some (Regular f) →
            files w' !! baselinePathOf this s =
              Some (Regular {| body := body f; mtime := clock w |})) ∧
    (∀ p, p ∉ baselinePathOf this <$> screenshots → files w' !! p = files w !! p).
Proof.
  intros Hreg Hfree Hnd.
  destruct (for_of_adopts_all this runId screenshots empty_results w Hreg Hfree Hnd)
    as (w' & Hret & _ & Hout & Hin).
  destruct (recorded_new_counters this screenshots empty_results) as (Ht & Hn & Hp & Hf).
  eexists _, w'. split; [exact Hret|].
  rewrite recorded_comparisons, Ht, Hn, Hp, Hf. simpl.
  repeat split; try done; lia.
Qed.

(** *** More on the comparison of two images *)


(** X7: what [compareImages] may touch. Whatever it returns or throws, the
    clock and every path other than the diff path are as before; when it
    throws, and when the comparison passes, the whole world is as before. *)
Theorem compareImages_touches_diff_only (currentPath baselinePath diffPath : string)
        (w w' : world) (res : exn + ImageDiff.t) :
  compareImages currentPath baselinePath diffPath w = (res, w') →
  clock w' = clock w ∧
  (∀ p, p ≠ diffPath → files w' !! p = files w !! p) ∧
  match res with
  | inl _ => w' = w
  | inr c => ImageDiff.passed c = true → w' = w
  end.
Proof.
  intros Hrun. destruct res as [e|c].
  - apply compareImages_throws_inv in Hrun as ->. done.
  - by apply compareImages_never_returns in Hrun.
Qed.

(** *** Baseline administration *)

(** X8: promotion. [updateBaseline] puts the content of the screenshot at
    the baseline path, over whatever baseline was there, and touches no other
    path; when the screenshot is not a file, or the baseline path cannot be
    written, it throws to its caller and changes nothing. *)
Theorem updateBaseline_overwrites_or_throws this (screenshotPath filename : string)
        (w : world) :
  let baselinePath := path_join [baselineDir this; filename] in
  (∀ f, files w !! screenshotPath = Some (Regular f) →
        writable (files w) baselinePath →
        ∃ w', returns (updateBaseline this screenshotPath filename) w () w' ∧
              files w' !! baselinePath =
                Some (Regular {| body := body f; mtime := clock w |}) ∧
              returns (fileExists baselinePath) w' true w' ∧
              ∀ p, p ≠ baselinePath → files w' !! p = files w !! p) ∧
  ((∀ f, files w !! screenshotPath ≠ Some (Regular f)) ∨
   ¬ writable (files w) baselinePath →
   ∃ e, throws (updateBaseline this screenshotPath filename) w e w).
Proof.
  intros baselinePath. unfold updateBaseline. fold baselinePath.
  destruct (copyFile_cases screenshotPath baselinePath w)
    as [(f & Hs & Hwr & Hcp)|(e & Hcp)].
  - split.
    + intros f' Hf' _. assert (f' = f) as -> by congruence.
      eexists. split; [exact Hcp|].
      unfold returns. rewrite fileExists_eq. unfold write, set_files. simpl.
      rewrite lookup_insert_eq. repeat split.
      intros p Hp. by rewrite lookup_insert_ne.
    + intros [Hno|Hno]; [by destruct (Hno f)|by destruct Hno].
  - split; [|eauto].
    intros f Hf Hwr. exfalso.
    unfold copyFile, throws in Hcp. rewrite Hf in Hcp.
    destruct (files w !! baselinePath) as [[fd|cd]|] eqn:Hd; try discriminate.
    by destruct (Hwr cd).
Qed.

(** X9: promotion does not make a capture pass. After
    [updateBaseline(screenshot, basename(screenshot))] on a capture file
    whose baseline path can be written, the pass of the loop on that
    screenshot does not adopt, and it does not compare either: the outcome
    is [error] with [diffPercentage] 100, and the pass leaves the world as
    the promotion left it. *)
Theorem promoted_capture_is_rejected this (runId screenshot : string)
        (r : Summary.t) (w : world) (f : file) :
  files w !! screenshot = Some (Regular f) →
  writable (files w) (baselinePathOf this screenshot) →
  ∃ w1 o,
    returns (updateBaseline this screenshot (path_basename screenshot)) w () w1 ∧
    files w1 !! baselinePathOf this screenshot =
      Some (Regular {| body := body f; mtime := clock w |}) ∧
    returns (iteration this runId r screenshot) w1 (recorded r o) w1 ∧
    Outcome.status o = "error" ∧
    Outcome.diffPercentage o = JS.Num 100 ∧
    Outcome.error o = Some "fs.createReadStream is not a function".
Proof.
  intros Hf Hwb.
  set (bp := baselinePathOf this screenshot) in *.
  set (w1 := write bp (body f) w).
  assert (Hup : returns (updateBaseline this screenshot (path_basename screenshot)) w () w1).
  { unfold updateBaseline, copyFile, returns. fold (baselinePathOf this screenshot).
    fold bp. rewrite Hf.
    destruct (files w !! bp) as [[fd|cd]|] eqn:Hd; try done. by destruct (Hwb cd). }
  assert (HB : files w1 !! bp = Some (Regular {| body := body f; mtime := clock w |})).
  { unfold w1, write, set_files. simpl. by rewrite lookup_insert_eq. }
  eexists w1, _. split; [exact Hup|]. split; [exact HB|].
  split; [exact (iteration_rejected this runId r screenshot w1 _ HB)|]. done.
Qed.

(** X10: removal. [deleteBaseline] never throws and touches neither the
    clock nor a path other than the baseline path. When [fs.unlink]
    succeeds, the world is the one it leaves and the baseline path is free;
    when [fs.unlink] throws, whatever the error, it is swallowed and
    nothing is changed at all. *)
Theorem deleteBaseline_swallows this (filename : string) (w : world) :
  let baselinePath := path_join [baselineDir this; filename] in
  ∃ w',
    returns (deleteBaseline this filename) w () w' ∧
    clock w' = clock w ∧
    (∀ p, p ≠ baselinePath → files w' !! p = files w !! p) ∧
    match unlink baselinePath w with
    | (inr _, w1) => w' = w1 ∧ files w' !! baselinePath = None
    | (inl _, _) => w' = w
    end.
Proof.
  intros baselinePath. unfold deleteBaseline, unlink, returns. fold baselinePath. run.
  destruct (files w !! baselinePath) as [[f|c]|] eqn:Hb.
  - eexists. split; [reflexivity|]. simpl.
    rewrite lookup_delete_eq. repeat split.
    intros p Hp. by rewrite lookup_delete_ne.
  - by exists w.
  - by exists w.
Qed.

(** X11: promotion undone. Promoting a capture to a baseline path that
    was free and then deleting that baseline gives back the world as it was,
    file for file. *)
Theorem promote_then_delete_restores this (screenshotPath filename : string)
        (w : world) (f : file) :
  files w !! screenshotPath = Some (Regular f) →
  files w !! path_join [baselineDir this; filename] = None →
  ∃ w1,
    returns (updateBaseline this screenshotPath filename) w () w1 ∧
    returns (deleteBaseline this filename) w1 () w.
Proof.
  intros Hs Hb. set (bp := path_join [baselineDir this; filename]) in *.
  exists (write bp (body f) w). split.
  - unfold updateBaseline, copyFile, returns. fold bp. by rewrite Hs, Hb.
  - unfold deleteBaseline, unlink, returns. fold bp. run.
    rewrite lookup_insert_eq. unfold set_files. simpl.
    rewrite delete_insert_eq, delete_id by done. by destruct w.
Qed.

(** *** Strings *)

Lemma append_cons (c : ascii) (s t : string) : String c s ++ t = String c (s ++ t).
Proof. reflexivity. Qed.

Lemma length_append (s t : string) :
  String.length (s ++ t) = (String.length s + String.length t)%nat.
Proof.
  induction s as [|c s IH]; [reflexivity|].
  rewrite append_cons. simpl. by rewrite IH.
Qed.

Lemma drop_append (pre suffix : string) :
  JSString.drop (String.length pre) (pre ++ suffix) = suffix.
Proof.
  induction pre as [|c pre IH]; [by destruct suffix|].
  rewrite append_cons. simpl. exact IH.
Qed.

Lemma take_drop (n : nat) (s : string) : JSString.take n s ++ JSString.drop n s = s.
Proof.
  revert s. induction n as [|n IH]; intros [|c s]; try reflexivity.
  simpl. rewrite append_cons. by rewrite IH.
Qed.

(** [endsWith] answers [true] exactly on the strings that are some prefix
    followed by the suffix *)
Lemma endsWith_iff (s suffix : string) :
  JSString.endsWith s suffix = true ↔ ∃ pre, s = pre ++ suffix.
Proof.
  unfold JSString.endsWith. rewrite andb_true_iff, Nat.leb_le, String.eqb_eq. split.
  - intros [_ Hd]. set (k := (String.length s - String.length suffix)%nat) in *.
    exists (JSString.take k s). rewrite <- Hd. by rewrite take_drop.
  - intros [pre ->]. rewrite length_append. split; [lia|].
    replace (String.length pre + String.length suffix - String.length suffix)%nat
      with (String.length pre) by lia.
    apply drop_append.
Qed.

Lemma length_take (n : nat) (s : string) :
  String.length (JSString.take n s) = Nat.min n (String.length s).
Proof.
  revert s. induction n as [|n IH]; intros [|c s]; try reflexivity.
  simpl. by rewrite IH.
Qed.

Lemma length_replace_colon_dot (s : string) :
  String.length (JSString.replace_colon_dot s) = String.length s.
Proof. induction s as [|c s IH]; [reflexivity|]. simpl. by rewrite IH. Qed.

Lemma replace_colon_dot_clean (s : string) :
  Forall (λ c, c ≠ ":"%char ∧ c ≠ "."%char)
         (list_ascii_of_string (JSString.replace_colon_dot s)).
Proof.
  induction s as [|c s IH]; [constructor|].
  simpl. constructor; [|exact IH].
  destruct (Ascii.eqb c ":") eqn:H1; simpl; [done|].
  destruct (Ascii.eqb c ".") eqn:H2; simpl; [done|].
  apply Ascii.eqb_neq in H1, H2. done.
Qed.

Lemma take_clean (P : ascii → Prop) (n : nat) (s : string) :
  Forall P (list_ascii_of_string s) →
  Forall P (list_ascii_of_string (JSString.take n s)).
Proof.
  revert s. induction n as [|n IH]; intros [|c s] Hs; try constructor.
  - by inversion Hs.
  - apply IH. by inversion Hs.
Qed.

Lemma length_drop (n : nat) (s : string) :
  String.length (JSString.drop n s) = (String.length s - n)%nat.
Proof.
  revert s. induction n as [|n IH]; intros [|c s]; try reflexivity.
  simpl. by rewrite IH.
Qed.

Lemma get_replace_colon_dot (i : nat) (s : string) :
  String.get i (JSString.replace_colon_dot s) =
    (λ c, if decide (c = ":"%char ∨ c = "."%char) then "-"%char else c)
      <$> String.get i s.
Proof.
  revert i. induction s as [|c s IH]; intros i; [reflexivity|].
  destruct i as [|i]; simpl; [|apply IH].
  f_equal.
  destruct (Ascii.eqb c ":") eqn:H1; simpl.
  { apply Ascii.eqb_eq in H1. rewrite decide_True; auto. }
  destruct (Ascii.eqb c ".") eqn:H2; simpl.
  { apply Ascii.eqb_eq in H2. rewrite decide_True; auto. }
  apply Ascii.eqb_neq in H1, H2. rewrite decide_False; [done|]. by intros [|].
Qed.

(** X17: the run identifier of [TestRunner]. It is the ISO text of the
    time in which every colon and every point has become a hyphen and
    every other character has stayed, without the last five characters of
    that text (without all of them when there are fewer); it holds neither
    a colon nor a point, so that it can stand in the name of the report
    directory. The clock is read and nothing is changed. *)
Theorem generateRunId_is_clean (w : world) :
  let iso := toISOString (clock w) in
  ∃ id tail,
    returns generateRunId w id w ∧
    id ++ tail = JSString.replace_colon_dot iso ∧
    String.length tail = Nat.min 5 (String.length iso) ∧
    String.length id = (String.length iso - 5)%nat ∧
    (∀ i, String.get i (JSString.replace_colon_dot iso) =
          (λ c, if decide (c = ":"%char ∨ c = "."%char) then "-"%char else c)
            <$> String.get i iso) ∧
    Forall (λ c, c ≠ ":"%char ∧ c ≠ "."%char) (list_ascii_of_string id).
Proof.
  intros iso.
  exists (JSString.slice_0_minus 5 (JSString.replace_colon_dot iso)),
         (JSString.drop (String.length (JSString.replace_colon_dot iso) - 5)
                        (JSString.replace_colon_dot iso)).
  split; [reflexivity|]. unfold JSString.slice_0_minus.
  split; [apply take_drop|].
  split; [rewrite length_drop, !length_replace_colon_dot; lia|].
  split; [rewrite length_take, !length_replace_colon_dot; lia|].
  split; [intros i; apply get_replace_colon_dot|].
  apply take_clean, replace_colon_dot_clean.
Qed.

(** *** The list of baselines *)

(** X12: [getBaselineList] never throws and changes nothing. Every name
    it gives ends in [.png]; when the baseline directory can be listed,
    every path that lies in it with a base name ending in [.png] is listed
    under that name, and when the directory holds no directories the names
    listed are exactly those; when the listing fails, the answer is the
    empty list. *)
Theorem getBaselineList_lists_png this (w : world) :
  ∃ names,
    returns (getBaselineList this) w names w ∧
    (∀ n, n ∈ names → ∃ stem, n = stem ++ ".png") ∧
    (files w !! baselineDir this = None →
     ∀ k, is_Some (files w !! k) → path_dirname k = baselineDir this →
          JSString.endsWith (path_basename k) ".png" = true →
          path_basename k ∈ names) ∧
    (files w !! baselineDir this = None → flat (baselineDir this) (files w) →
     ∀ n, n ∈ names →
          ∃ k, is_Some (files w !! k) ∧ path_dirname k = baselineDir this ∧
               path_basename k = n) ∧
    (is_Some (files w !! baselineDir this) → names = []).
Proof.
  unfold getBaselineList, readdir, returns. run.
  destruct (files w !! baselineDir this) as [[f|c]|] eqn:Hd.
  - exists []. repeat split; try done; intros n Hn; by apply elem_of_nil in Hn.
  - exists []. repeat split; try done; intros n Hn; by apply elem_of_nil in Hn.
  - eexists. split; [reflexivity|].
    assert (Hmem : ∀ n,
      n ∈ List.filter (λ file, JSString.endsWith file ".png")
            (merge_sort name_le
               (path_basename <$> entries_of (baselineDir this) (files w))) ↔
      JSString.endsWith n ".png" = true ∧
      ∃ k, is_Some (files w !! k) ∧ path_dirname k = baselineDir this ∧
           path_basename k = n).
    { intros n. rewrite list_elem_of_In, filter_In, <- list_elem_of_In.
      rewrite merge_sort_Permutation, list_elem_of_fmap. split.
      - intros [(k & -> & Hk) He]. split; [done|].
        apply elem_of_entries_of in Hk as [Hdir Hsome]. eauto.
      - intros [He (k & Hsome & Hdir & <-)]. split; [|done].
        exists k. split; [done|]. by apply elem_of_entries_of. }
    split; [|split; [|split]].
    + intros n Hn. apply Hmem in Hn as [He _]. by apply endsWith_iff.
    + intros _ k Hk Hdir He. apply Hmem. eauto.
    + intros _ _ n Hn. by apply Hmem in Hn as [_ Hn].
    + intros [e He]. discriminate.
Qed.

(** *** The report after a run *)

(** X13: the report of a run. When nothing stands in the way of the
    report file before the run, the run followed by
    [generateVisualRegressionReport] returns the path of the report, having
    written the report there and nothing anywhere else; a report path that
    cannot be written makes the report, not the run, throw to the caller,
    with nothing written. *)
Theorem report_follows_run this (screenshots : list string) (runId : string)
        (w : world) :
  let reportPath := path_join [reportsDir this; "visual-regression-report.md"] in
  ∃ r w1,
    returns (compareScreenshots this screenshots runId) w r w1 ∧
    (writable (files w) reportPath →
     ∃ w2 text,
       returns (generateVisualRegressionReport this r runId) w1 reportPath w2 ∧
       files w2 !! reportPath =
         Some (Regular {| body := Raw (list_byte_of_string text); mtime := clock w |}) ∧
       ∀ p, p ≠ reportPath → files w2 !! p = files w1 !! p) ∧
    (∀ c, files w !! reportPath = Some (Failing c) →
          throws (generateVisualRegressionReport this r runId) w1
                 (SystemError c "open" reportPath) w1).
Proof.
  intros reportPath.
  destruct (compareScreenshots_processed this runId screenshots w)
    as (os & w1 & Hret & Hall).
  destruct (processed_all_world_kept _ _ _ _ _ _ Hall) as [Hclock Hkept].
  assert (Hfail : ∀ c, files w1 !! reportPath = Some (Failing c) ↔
                       files w !! reportPath = Some (Failing c))
    by (intros c; apply (Hkept reportPath)).
  eexists _, w1. split; [exact Hret|]. split.
  - intros Hwr.
    unfold generateVisualRegressionReport, writeFile, Date_now, returns.
    fold reportPath. run.
    destruct (files w1 !! reportPath) as [[f|c]|] eqn:Hp.
    + eexists _, _. split; [reflexivity|]. simpl. rewrite lookup_insert_eq, Hclock.
      split; [reflexivity|]. intros p Hne. by rewrite lookup_insert_ne.
    + apply (Hkept reportPath) in Hp. by destruct (Hwr c).
    + eexists _, _. split; [reflexivity|]. simpl. rewrite lookup_insert_eq, Hclock.
      split; [reflexivity|]. intros p Hne. by rewrite lookup_insert_ne.
  - intros c Hc. apply Hfail in Hc.
    unfold generateVisualRegressionReport, writeFile, Date_now, throws.
    fold reportPath. run. by rewrite Hc.
Qed.

(** *** How an outcome is rendered *)

(** the row of an outcome that a run makes *)
Lemma processed_row this runId screenshot w o w' :
  processed this runId screenshot w o w' →
  let row (glyph cell : string) :=
    "| " ++ path_basename screenshot ++ " | " ++ glyph ++ " | " ++ cell ++
    " | " ++ link "Baseline" (baselinePathOf this screenshot) ++
    " | " ++ link "Current" screenshot ++ " | N/A |" ++ nl in
  (Outcome.status o = "new" ∧ report_row o = row "📸" "N/A")
  ∨ (Outcome.status o = "error" ∧ report_row o = row "⚠️" "100.00%").
Proof.
  destruct 1 as [f Hex Hs Hwr|e Hex Hcp|e Hex Hc]; simpl.
  - left. split; reflexivity.
  - right. split; reflexivity.
  - right. split; reflexivity.
Qed.

(** X14: the rows of the report of a run. The report written after a
    run holds one row for each screenshot, in their order: for an outcome
    [new] the base name, the camera, [N/A] as the percentage, the links to
    the baseline and to the capture and [N/A] as the diff; for an outcome
    [error] the same with the warning sign and [100.00%]. *)
Theorem outcome_rendering this (screenshots : list string) (runId : string)
        (w : world) :
  let reportPath := path_join [reportsDir this; "visual-regression-report.md"] in
  let row (screenshot glyph cell : string) :=
    "| " ++ path_basename screenshot ++ " | " ++ glyph ++ " | " ++ cell ++
    " | " ++ link "Baseline" (baselinePathOf this screenshot) ++
    " | " ++ link "Current" screenshot ++ " | N/A |" ++ nl in
  ∃ r w1 rows,
    returns (compareScreenshots this screenshots runId) w r w1 ∧
    Forall3 (λ screenshot o line,
               (Outcome.status o = "new" ∧ line = row screenshot "📸" "N/A")
               ∨ (Outcome.status o = "error" ∧ line = row screenshot "⚠️" "100.00%"))
            screenshots (Summary.comparisons r) rows ∧
    (writable (files w) reportPath →
     ∃ w2,
       returns (generateVisualRegressionReport this r runId) w1 reportPath w2 ∧
       files w2 !! reportPath =
         Some (Regular
                 {| body :=
                      Raw (list_byte_of_string
                             (report_header r runId (clock w) ++
                              String.concat "" rows ++
                              recommendations r ++ report_footer this));
                    mtime := clock w |})).
Proof.
  intros reportPath row.
  destruct (compareScreenshots_processed this runId screenshots w)
    as (os & w1 & Hret & Hall).
  destruct (processed_all_world_kept _ _ _ _ _ _ Hall) as [Hclock Hkept].
  eexists _, w1, (map report_row os). split; [exact Hret|].
  rewrite recorded_comparisons. simpl. split.
  - clear Hret Hclock Hkept.
    induction Hall as [|s rest w0 o w2 os w3 Hp Hall IH]; [constructor|].
    simpl. constructor; [|exact IH].
    destruct (processed_row _ _ _ _ _ _ Hp) as [[? ?]|[? ?]]; [left|right]; done.
  - intros Hwr.
    assert (Hwr1 : writable (files w1) reportPath).
    { intros c Hc. apply (Hkept reportPath) in Hc. by destruct (Hwr c). }
    pose proof (report_written this (fold_left recorded os empty_results) runId w1 Hwr1)
      as Hrep.
    rewrite recorded_comparisons in Hrep. simpl in Hrep.
    eexists. split; [exact Hrep|].
    unfold write, set_files. simpl. fold reportPath.
    by rewrite lookup_insert_eq, Hclock.
Qed.

(** *** More on the clean-up *)

Lemma cleanup_loop_safe this (maxAge : JS.number) (w : world) names w0 :
  clock w0 = clock w →
  (∀ k, files w0 !! k = files w !! k ∨
        (files w0 !! k = None ∧
         ∃ f, files w !! k = Some (Regular f) ∧ older_than (clock w) maxAge f = true)) →
  let w' := snd (cleanup_loop this (clock w) maxAge names w0) in
  clock w' = clock w ∧
  ∀ k, files w' !! k = files w !! k ∨
       (files w' !! k = None ∧
        ∃ f, files w !! k = Some (Regular f) ∧ older_than (clock w) maxAge f = true).
Proof.
  revert w0. induction names as [|n names IH]; intros w0 Hclock Hrel; [done|].
  simpl. run. unfold stat.
  set (p := path_join [diffDir this; n]).
  destruct (files w0 !! p) as [[f|c]|] eqn:Hp; try done.
  fold (older_than (clock w) maxAge f).
  destruct (older_than (clock w) maxAge f) eqn:Hold; simpl.
  - unfold unlink. rewrite Hp. apply IH; [done|].
    intros k. simpl. destruct (decide (k = p)) as [->|Hne].
    + right. rewrite lookup_delete_eq. split; [done|].
      destruct (Hrel p) as [Heq|[Hnone _]]; [|congruence].
      exists f. by rewrite <- Heq.
    + rewrite lookup_delete_ne by done. apply Hrel.
  - by apply IH.
Qed.

(** X15: the clean-up removes old files only. In every world, whether the
    scan completes or stops at a failure, [cleanupOldDiffs] returns, does not
    touch the clock, creates and alters no file, and every file it has
    removed had [now - mtime > maxAge]. *)
Theorem cleanup_removes_only_old this (maxAge : JS.number) (w : world) :
  ∃ w',
    returns (cleanupOldDiffs this maxAge) w () w' ∧
    clock w' = clock w ∧
    ∀ k, files w' !! k = files w !! k ∨
         (files w' !! k = None ∧
          ∃ f, files w !! k = Some (Regular f) ∧
               older_than (clock w) maxAge f = true).
Proof.
  unfold cleanupOldDiffs, readdir, Date_now, returns. run.
  destruct (files w !! diffDir this) as [[f|c]|]; try (exists w; by auto).
  pose proof (cleanup_loop_safe this maxAge w
                (merge_sort name_le (path_basename <$> entries_of (diffDir this) (files w)))
                w eq_refl
                (λ k, or_introl eq_refl)) as Hsafe.
  cbv zeta in Hsafe.
  destruct (cleanup_loop _ _ _ _ _) as [[e|[]] w']; simpl in Hsafe; eauto.
Qed.

(** X16: a second clean-up finds nothing to do. When nothing hinders the
    scan, the world that [cleanupOldDiffs] leaves is one on which the same
    call, at the same time and with the same [maxAge], changes nothing. *)
Theorem cleanup_twice this (maxAge : JS.number) (w : world) :
  scan_unhindered this w →
  ∃ w1,
    returns (cleanupOldDiffs this maxAge) w () w1 ∧
    scan_unhindered this w1 ∧
    returns (cleanupOldDiffs this maxAge) w1 () w1.
Proof.
  intros Hun.
  destruct (cleanup_unhindered_files this maxAge w Hun) as (w1 & Hret1 & Hclock1 & Hfiles1).
  assert (Hun1 : scan_unhindered this w1).
  { destruct Hun as [Hdir Hall]. split.
    - by rewrite Hfiles1, Hdir.
    - intros k e Hk. apply (Hall k e). rewrite Hfiles1 in Hk.
      destruct (files w !! k) as [[f|c]|]; try done.
      destruct (decide _); [|done]. by destruct (older_than _ _ _). }
  destruct (cleanup_unhindered_files this maxAge w1 Hun1) as (w2 & Hret2 & Hclock2 & Hfiles2).
  exists w1. split; [exact Hret1|]. split; [exact Hun1|].
  assert (w2 = w1) as <-; [|exact Hret2].
  destruct w1 as [m1 c1], w2 as [m2 c2]. simpl in *. f_equal; [|congruence].
  apply map_eq. intros k. rewrite Hfiles2, Hfiles1, Hclock1.
  destruct (files w !! k) as [[f|c]|]; try done.
  destruct (decide (path_dirname k = diffDir this)) as [Hd|Hd].
  - destruct (older_than (clock w) maxAge f) eqn:Hold; [done|]. by rewrite Hold.
  - done.
Qed.

(** *** A capture listed twice *)

(** X18: the same capture twice in one run. On a capture file without
    baseline, the first pass adopts it and the second finds the baseline
    just written: its comparison is rejected. The outcomes are [new], then
    [error], and the summary counts one [new] and one [failed] out of
    two. *)
Theorem capture_listed_twice this (runId screenshot : string) (w : world)
        (f : file) :
  files w !! screenshot = Some (Regular f) →
  files w !! baselinePathOf this screenshot = None →
  ∃ r o1 o2,
    returns (compareScreenshots this [screenshot; screenshot] runId) w r
            (write (baselinePathOf this screenshot) (body f) w) ∧
    Summary.comparisons r = [o1; o2] ∧
    Outcome.status o1 = "new" ∧
    Outcome.status o2 = "error" ∧
    Summary.total r = 2%N ∧ Summary.new r = 1%N ∧
    Summary.failed r = 1%N ∧ Summary.passed r = 0%N.
Proof.
  intros Hf Hb.
  set (bp := baselinePathOf this screenshot) in *.
  pose proof (iteration_adopts this runId empty_results screenshot w f Hf Hb) as Hit1.
  fold bp in Hit1. set (w1 := write bp (body f) w) in *.
  assert (HB : files w1 !! bp = Some (Regular {| body := body f; mtime := clock w |})).
  { unfold w1, write, set_files. simpl. by rewrite lookup_insert_eq. }
  pose proof (iteration_rejected this runId
                (recorded empty_results (outcome_new this screenshot))
                screenshot w1 _ HB) as Hit2.
  eexists _, (outcome_new this screenshot), _. split.
  - unfold compareScreenshots, returns. simpl. run.
    fold empty_results. rewrite Hit1, Hit2. reflexivity.
  - repeat split.
Qed.

(** *** The default retention *)

Lemma older_than_finite (now a : Z) (f : file) :
  older_than now (JS.of_Z a) f = true ↔ (a < now - mtime f)%Z.
Proof.
  unfold older_than, JS.gt, JS.lt, JS.sub_Z, JS.of_Z, JS.Qltb. simpl.
  rewrite Z.ltb_lt. lia.
Qed.

(** X19: the default retention of seven days. With the default [maxAge],
    a file that was modified at most 604800000 milliseconds before the call
    is still there after [cleanupOldDiffs], in every world and whatever
    fails during the scan. *)
Theorem recent_files_survive_cleanup this (w : world) (k : string) (f : file) :
  files w !! k = Some (Regular f) →
  (clock w - mtime f <= 604800000)%Z →
  ∃ w',
    returns (cleanupOldDiffs this default_maxAge) w () w' ∧
    files w' !! k = Some (Regular f).
Proof.
  intros Hk Hage.
  assert (Hyoung : older_than (clock w) default_maxAge f = false).
  { apply not_true_is_false. unfold default_maxAge. rewrite older_than_finite.
    change (7 * 24 * 60 * 60 * 1000)%Z with 604800000%Z. lia. }
  unfold cleanupOldDiffs, readdir, Date_now, returns. run.
  destruct (files w !! diffDir this) as [[fd|cd]|]; try (by exists w).
  pose proof (cleanup_loop_safe this default_maxAge w
                (merge_sort name_le (path_basename <$> entries_of (diffDir this) (files w)))
                w eq_refl
                (λ k, or_introl eq_refl)) as Hsafe.
  cbv zeta in Hsafe. destruct Hsafe as [_ Hsafe].
  destruct (cleanup_loop _ _ _ _ _) as [[e|[]] w']; simpl in Hsafe;
    exists w'; (split; [reflexivity|]);
    (destruct (Hsafe k) as [->|(_ & f' & Hf' & Hold)]; [done|]);
    rewrite Hk in Hf'; injection Hf' as <-; congruence.
Qed.

End Properties.

(** C8 as stated fails: [fs.access] on a path without permission throws
    [EACCES], an error that is not "not found", and [fileExists] answers
    [false] instead of throwing. *)
Lemma fileExists_hides_permission_error :
  ¬ (∀ (p : string) (w : world) (e : exn),
        fst (access p w) = inl e → code e ≠ Some ENOENT →
        ∃ e' w', throws (fileExists p) w e' w').
Proof.
  intros claim.
  destruct (claim "baselines/01-home.png"
                  {| files := {[ "baselines/01-home.png" := Failing EACCES ]}; clock := 0 |}
                  (SystemError EACCES "access" "baselines/01-home.png"))
    as (e' & w' & Hthrow).
  - reflexivity.
  - discriminate.
  - unfold throws in Hthrow. rewrite fileExists_eq in Hthrow. discriminate.
Qed.

(** ** The properties on the example worlds *)

#[local] Existing Instance Posix.platform.

(** C2 on the first run: [login] comes after [home], has no baseline, and
    is adopted. *)
Lemma new_capture_adopted_witness :
  ∃ r w',
    returns (compareScreenshots Examples.tester [Examples.home; Examples.login] "p1")
            Examples.first_run r w' ∧
    (∃ o, Summary.comparisons r !! 1%nat = Some o ∧ Outcome.status o = "new") ∧
    returns (fileExists (baselinePathOf Examples.tester Examples.login)) w' true w'.
Proof.
  edestruct (new_capture_adopted Examples.tester "p1" [Examples.home] []
               Examples.login Examples.first_run)
    as (r2 & r & w' & Hit & Hrun & (o & Ho & _ & Hst & _) & Hex).
  - vm_compute. reflexivity.
  - vm_compute. reflexivity.
  - vm_compute. reflexivity.
  - exists r, w'. split; [exact Hrun|]. split; [|exact Hex].
    exists o. split; [exact Ho|exact Hst].
Defined.

(** C3 on the unchanged run: the capture and its baseline are the same
    image, no pixel differs, and the outcome is [error] with
    [diffPercentage] 100 instead of [passed] with 0. *)
Lemma comparison_rejected_witness :
  holds_png (files Examples.unchanged_run) Examples.home Examples.wide ∧
  holds_png (files Examples.unchanged_run)
            (baselinePathOf Examples.tester Examples.home) Examples.wide ∧
  ∃ o,
    returns (iteration Examples.tester "p1" empty_results Examples.home)
            Examples.unchanged_run (recorded empty_results o) Examples.unchanged_run ∧
    Outcome.status o = "error" ∧
    Outcome.diffPercentage o = JS.Num 100 ∧
    Outcome.error o = Some "fs.createReadStream is not a function".
Proof.
  split; [eexists; split; vm_compute; reflexivity|].
  split; [eexists; split; vm_compute; reflexivity|].
  destruct (comparison_rejected Examples.tester "p1" empty_results Examples.home
              Examples.unchanged_run {| body := Png Examples.wide; mtime := 500 |})
    as (_ & o & r' & Hit & -> & Hst & Hpct & Herr & _).
  - vm_compute. reflexivity.
  - exists o. split; [exact Hit|]. split; [exact Hst|]. split; [exact Hpct|exact Herr].
Defined.

(** C4 on the reshaped run: the baseline is 1 by 2 pixels, the capture 2
    by 1. *)
Lemma size_mismatch_is_error_witness :
  ∃ r w',
    returns (compareScreenshots Examples.tester [Examples.home] "p1")
            Examples.reshaped_run r w' ∧
    ∃ o, Summary.comparisons r !! 0%nat = Some o ∧
         Outcome.status o = "error" ∧ Outcome.diffPercentage o = JS.Num 100.
Proof.
  edestruct (size_mismatch_is_error Examples.tester "p1" [] [] Examples.home
               Examples.reshaped_run Examples.reshaped_run empty_results
               Examples.wide Examples.tall)
    as (r2 & r & w' & Hit & Hafter & Hrun & (o & Ho & Hst & Hpct & _) & Hlen).
  - vm_compute. reflexivity.
  - eexists. split; vm_compute; reflexivity.
  - eexists. split; vm_compute; reflexivity.
  - left. vm_compute. discriminate.
  - exists r, w'. split; [exact Hrun|]. exists o. split; [exact Ho|]. split; assumption.
Defined.

(** C5 on the corrupt run: the capture of [home] is not a PNG file and its
    baseline is there; the outcome is [error], and [login], which comes
    after it, is adopted. *)
Lemma failure_is_contained_witness :
  ∃ r w',
    returns (compareScreenshots Examples.tester [Examples.home; Examples.login] "p1")
            Examples.corrupt_run r w' ∧
    (∃ o, Summary.comparisons r !! 0%nat = Some o ∧
          Outcome.status o = "error" ∧
          Outcome.error o = Some "fs.createReadStream is not a function") ∧
    length (Summary.comparisons r) = 2%nat.
Proof.
  destruct (failure_is_contained Examples.tester "p1") as [_ Hcaught].
  edestruct (Hcaught [] [Examples.login] Examples.home Examples.corrupt_run)
    as (r2 & r & w' & Hit & Hafter & Hrun & (o & Ho & Hst & Hpct & Herr & Hdiff) & Hlen).
  - vm_compute. reflexivity.
  - vm_compute. reflexivity.
  - exists r, w'. split; [exact Hrun|]. split; [|exact Hlen].
    exists o. split; [exact Ho|]. split; [exact Hst|exact Herr].
Defined.

(** C6, as amended, on the changed run: the outcome is [error], its
    [diff] is null and nothing is at the diff path after the run. *)
Lemma no_diff_artifact_unless_failed_witness :
  ∃ r w' o,
    returns (compareScreenshots Examples.tester [Examples.home] "p1")
            Examples.changed_run r w' ∧
    Summary.comparisons r !! 0%nat = Some o ∧
    Outcome.status o = "error" ∧
    Outcome.diff o = None ∧
    files w' !! "reports/run1/diffs/p1-01-home.png" = None.
Proof.
  destruct (no_diff_artifact_unless_failed "reports/run1" "p1") as (_ & _ & Hrun).
  destruct (Hrun [Examples.home] Examples.changed_run) as (r & w' & Hret & Hdiff & Hframe).
  assert (Ho : ∃ o, Summary.comparisons r !! 0%nat = Some o ∧ Outcome.status o = "error").
  { vm_compute in Hret. injection Hret as <- _. eexists. split; reflexivity. }
  destruct Ho as (o & Ho & Hst).
  exists r, w', o. split; [exact Hret|]. split; [exact Ho|]. split; [exact Hst|]. split.
  - apply (Hdiff 0%nat o Ho). rewrite Hst. discriminate.
  - rewrite Hframe; [vm_compute; reflexivity|].
    intros [|i] s o' Hs _ _; [|destruct i; discriminate Hs].
    injection Hs as <-. vm_compute. discriminate.
Defined.

(** C6 as stated fails for the errors of the comparison: on the resized run
    [compareImages] throws, and no diff image is at the diff path after the
    pass. *)
Lemma no_diff_artifact_for_comparison_error :
  ¬ (∀ (P : Platform) (this : VisualRegressionTester) (runId screenshot : string)
       (r : Summary.t) (w w1 : world) (e : exn),
        returns (fileExists (baselinePathOf this screenshot)) w true w →
        throws (compareImages screenshot (baselinePathOf this screenshot)
                              (diffPathOf this runId screenshot)) w e w1 →
        ∃ r' w' f,
          returns (iteration this runId r screenshot) w r' w' ∧
          files w' !! diffPathOf this runId screenshot = Some (Regular f)).
Proof.
  intros claim.
  edestruct (claim Posix.platform Examples.tester "p1" Examples.home empty_results
                   Examples.resized_run)
    as (r' & w' & f & Hit & Hf).
  - vm_compute. reflexivity.
  - vm_compute. reflexivity.
  - vm_compute in Hit. injection Hit as _ <-. vm_compute in Hf. discriminate.
Qed.

(** C9 with a run identifier that leads from the diff directory to the
    baseline directory: the diff path of [01-home.png] is
    [baselines/00-01-home.png], the baseline of another screenshot, and
    that baseline is the same file after the run. *)
Lemma baseline_not_written_witness :
  diffPathOf Examples.tester Examples.traversing_runId Examples.home
    = "baselines/00-01-home.png" ∧
  ∃ r w',
    returns (compareScreenshots Examples.tester [Examples.home] Examples.traversing_runId)
            Examples.traversed r w' ∧
    files w' !! "baselines/00-01-home.png" = Some (Examples.at_time 400 (Png Examples.dot)).
Proof.
  split; [vm_compute; reflexivity|].
  destruct (baseline_not_written Examples.tester Examples.traversing_runId
              "00-01-home.png" {| body := Png Examples.dot; mtime := 400 |}
              [Examples.home] Examples.traversed)
    as (r & w' & Hret & Hf).
  - vm_compute. reflexivity.
  - exists r, w'. split; [exact Hret|exact Hf].
Defined.

(** C7, as amended, with a [maxAge] of 500 milliseconds: the diff image
    that is 1900 milliseconds old is removed, the one that is 100
    milliseconds old and the baseline stay. *)
Lemma cleanup_removes_old_witness :
  ∃ w',
    returns (cleanupOldDiffs Examples.tester (JS.of_Z 500)) Examples.later () w' ∧
    files w' !! "reports/run1/diffs/p0-01-home.png" = None ∧
    files w' !! "reports/run1/diffs/p1-01-home.png" =
      Some (Examples.at_time 1900 (Png Examples.wide)) ∧
    files w' !! "baselines/01-home.png" = Some (Examples.at_time 500 (Png Examples.wide)).
Proof.
  destruct (cleanup_removes_old Examples.tester) as (_ & Hexact & _ & _).
  destruct (Hexact (JS.of_Z 500) Examples.later) as (w' & Hret & Hfiles).
  - split; [vm_compute; reflexivity|].
    apply (bool_decide_unpack _). vm_compute. exact I.
  - apply (bool_decide_unpack _). vm_compute. exact I.
  - exists w'. split; [exact Hret|].
    rewrite !Hfiles. repeat split; vm_compute; reflexivity.
Defined.

(** C7 as stated fails twice. When the diff directory cannot be listed,
    the failure is swallowed and an old diff image in it stays. And with
    [maxAge] 0 a diff image written in the millisecond of the call
    stays. *)
Lemma cleanup_leaves_old_and_fresh :
  ¬ (∀ (P : Platform) (this : VisualRegressionTester) (maxAge : JS.number)
       (w w' : world),
        returns (cleanupOldDiffs this maxAge) w () w' →
        ∀ k f, files w !! k = Some (Regular f) → path_dirname k = diffDir this →
               (files w' !! k = None ↔ older_than (clock w) maxAge f = true))
  ∧ ¬ (∀ (P : Platform) (this : VisualRegressionTester) (w w' : world),
        returns (cleanupOldDiffs this (JS.Num 0)) w () w' →
        ∀ k, path_dirname k = diffDir this → files w' !! k = None).
Proof.
  split; intros claim.
  - assert (Hrun : returns (cleanupOldDiffs Examples.tester (JS.of_Z 500))
                           Examples.unlistable () Examples.unlistable)
      by (vm_compute; reflexivity).
    destruct (claim Posix.platform Examples.tester (JS.of_Z 500) _ _ Hrun
                    "reports/run1/diffs/p0-01-home.png"
                    {| body := Png Examples.wide; mtime := 100 |})
      as [_ Hgone].
    + vm_compute. reflexivity.
    + vm_compute. reflexivity.
    + specialize (Hgone eq_refl). vm_compute in Hgone. discriminate.
  - assert (Hrun : returns (cleanupOldDiffs Examples.tester (JS.Num 0))
                           Examples.just_written () Examples.just_written)
      by (vm_compute; reflexivity).
    pose proof (claim Posix.platform Examples.tester _ _ Hrun
                      "reports/run1/diffs/p1-01-home.png" eq_refl) as Hgone.
    vm_compute in Hgone. discriminate.
Qed.

(** C10 on a summary with one outcome of 12.5 percent: the report is
    written, and the cell reads [12.50%]. *)
Lemma diff_percent_column_witness :
  (∃ w' f,
     returns (generateVisualRegressionReport Examples.tester Examples.eighth "p1")
             Examples.first_run "reports/run1/visual-regression-report.md" w' ∧
     files w' !! "reports/run1/visual-regression-report.md" = Some (Regular f)) ∧
  Forall (λ o, diffPercent o = "12.50%") (Summary.comparisons Examples.eighth).
Proof.
  destruct (diff_percent_column Examples.tester Examples.eighth "p1" Examples.first_run)
    as [Hfile Hrow].
  split.
  - destruct Hfile as (w' & Hret & Hf).
    + intros code. vm_compute. discriminate.
    + exists w'. eexists. split; [exact Hret|exact Hf].
  - constructor; [|constructor].
    match goal with |- diffPercent ?c = _ =>
      destruct (Hrow c) as (_ & _ & _ & _ & Hcell) end.
    destruct (Hcell (25 # 2)%Q) as [_ ->].
    + reflexivity.
    + intros Hq. discriminate Hq.
    + reflexivity.
    + vm_compute. reflexivity.
Defined.

(** ** The further properties on the example worlds *)

(** X2 on the changed run: the capture and the baseline are still files
    after the run. *)
Lemma run_removes_nothing_witness :
  ∃ r w' f',
    returns (compareScreenshots Examples.tester [Examples.home] "p1")
            Examples.changed_run r w' ∧
    files w' !! "baselines/01-home.png" = Some (Regular f').
Proof.
  destruct (run_removes_nothing Examples.tester [Examples.home] "p1" Examples.changed_run)
    as (r & w' & Hret & _ & Hkept).
  destruct (Hkept "baselines/01-home.png") as (Hreg & _ & _).
  edestruct Hreg as [f' Hf'].
  - vm_compute. reflexivity.
  - exists r, w', f'. split; [exact Hret|exact Hf'].
Defined.

(** X3 on the unchanged run: the baseline of [home] is there and [home] is
    not adopted. *)
Lemma taken_baseline_not_adopted_witness :
  ∃ r w' o,
    returns (compareScreenshots Examples.tester [Examples.home] "p1")
            Examples.unchanged_run r w' ∧
    Summary.comparisons r !! 0%nat = Some o ∧ Outcome.status o ≠ "new".
Proof.
  destruct (taken_baseline_not_adopted Examples.tester [Examples.home] "p1"
              Examples.unchanged_run) as (r & w' & Hret & Hno).
  assert (Ho : ∃ o, Summary.comparisons r !! 0%nat = Some o).
  { vm_compute in Hret. injection Hret as <- _. eexists. reflexivity. }
  destruct Ho as [o Ho].
  exists r, w', o. split; [exact Hret|]. split; [exact Ho|].
  apply (Hno 0%nat Examples.home o); [reflexivity|exact Ho|].
  vm_compute. eexists. reflexivity.
Defined.

(** X4 on the first run: both captures are adopted. *)
Lemma first_run_adopts_all_witness :
  ∃ r w',
    returns (compareScreenshots Examples.tester [Examples.home; Examples.login] "p1")
            Examples.first_run r w' ∧
    Summary.total r = 2%N ∧ Summary.new r = 2%N ∧
    Summary.passed r = 0%N ∧ Summary.failed r = 0%N.
Proof.
  destruct (first_run_adopts_all Examples.tester [Examples.home; Examples.login] "p1"
              Examples.first_run)
    as (r & w' & Hret & _ & Ht & Hn & Hp & Hf & _).
  - repeat constructor; eexists; vm_compute; reflexivity.
  - repeat constructor; vm_compute; reflexivity.
  - apply (bool_decide_unpack _). vm_compute. exact I.
  - exists r, w'. repeat split; assumption.
Defined.

(** X5 on the first run: run again, nothing is new. *)
Lemma second_run_adopts_nothing_witness :
  ∃ r1 w1 r2 w2,
    returns (compareScreenshots Examples.tester [Examples.home; Examples.login] "p1")
            Examples.first_run r1 w1 ∧
    returns (compareScreenshots Examples.tester [Examples.home; Examples.login] "p2")
            w1 r2 w2 ∧
    Summary.new r2 = 0%N.
Proof.
  destruct (second_run_adopts_nothing Examples.tester [Examples.home; Examples.login]
              "p1" "p2" Examples.first_run)
    as (r1 & w1 & r2 & w2 & H1 & H2 & Hn & _).
  - repeat constructor; eexists; vm_compute; reflexivity.
  - exists r1, w1, r2, w2. repeat split; assumption.
Defined.

(** X7 on the changed run: the comparison is rejected and leaves the
    baseline as it is. *)
Lemma compareImages_touches_diff_only_witness :
  ∃ res w',
    compareImages Examples.home "baselines/01-home.png"
                  "reports/run1/diffs/p1-01-home.png" Examples.changed_run = (res, w') ∧
    files w' !! "baselines/01-home.png" =
      files Examples.changed_run !! "baselines/01-home.png".
Proof.
  destruct (compareImages Examples.home "baselines/01-home.png"
              "reports/run1/diffs/p1-01-home.png" Examples.changed_run)
    as [res w'] eqn:Hrun.
  exists res, w'. split; [reflexivity|].
  apply (compareImages_touches_diff_only _ _ _ _ _ _ Hrun). discriminate.
Defined.

(** X8 on the changed run: the changed capture is promoted over the old
    baseline. *)
Lemma updateBaseline_overwrites_or_throws_witness :
  ∃ w',
    returns (updateBaseline Examples.tester Examples.home "01-home.png")
            Examples.changed_run () w' ∧
    files w' !! "baselines/01-home.png" =
      Some (Examples.at_time 2000 (Png Examples.wide_changed)).
Proof.
  destruct (updateBaseline_overwrites_or_throws Examples.tester Examples.home
              "01-home.png" Examples.changed_run) as [Hok _].
  destruct (Hok {| body := Png Examples.wide_changed; mtime := 1000 |})
    as (w' & Hret & Hf & _).
  - vm_compute. reflexivity.
  - intros code. vm_compute. discriminate.
  - exists w'. split; [exact Hret|exact Hf].
Defined.

(** X9 on the changed run: once promoted, the changed capture is still
    an [error]. *)
Lemma promoted_capture_is_rejected_witness :
  ∃ w1 o,
    returns (updateBaseline Examples.tester Examples.home "01-home.png")
            Examples.changed_run () w1 ∧
    returns (iteration Examples.tester "p1" empty_results Examples.home) w1
            (recorded empty_results o) w1 ∧
    Outcome.status o = "error".
Proof.
  destruct (promoted_capture_is_rejected Examples.tester "p1" Examples.home
              empty_results Examples.changed_run
              {| body := Png Examples.wide_changed; mtime := 1000 |})
    as (w1 & o & Hup & _ & Hit & Hst & _).
  - vm_compute. reflexivity.
  - intros code. vm_compute. discriminate.
  - exists w1, o. split; [exact Hup|]. split; [exact Hit|exact Hst].
Defined.

(** X10 on the unchanged run: the baseline of [home] is deleted; and on
    the first run, where there is none, nothing changes. *)
Lemma deleteBaseline_swallows_witness :
  (∃ w', returns (deleteBaseline Examples.tester "01-home.png")
                 Examples.unchanged_run () w' ∧
         files w' !! "baselines/01-home.png" = None ∧
         files w' !! Examples.home = files Examples.unchanged_run !! Examples.home) ∧
  returns (deleteBaseline Examples.tester "01-home.png")
          Examples.first_run () Examples.first_run.
Proof.
  split.
  - destruct (deleteBaseline_swallows Examples.tester "01-home.png" Examples.unchanged_run)
      as (w' & Hret & _ & Hframe & Hunlink).
    change (w' = set_files (delete "baselines/01-home.png" (files Examples.unchanged_run))
                           Examples.unchanged_run ∧
            files w' !! "baselines/01-home.png" = None) in Hunlink.
    destruct Hunlink as [_ Hfree].
    exists w'. split; [exact Hret|]. split; [exact Hfree|].
    apply Hframe. vm_compute. discriminate.
  - destruct (deleteBaseline_swallows Examples.tester "01-home.png" Examples.first_run)
      as (w' & Hret & _ & _ & Hunlink).
    change (w' = Examples.first_run) in Hunlink.
    rewrite <- Hunlink at 2. exact Hret.
Defined.

(** X11 on the first run: promote [home], delete the baseline, and the
    world is the first one again. *)
Lemma promote_then_delete_restores_witness :
  ∃ w1,
    returns (updateBaseline Examples.tester Examples.home "01-home.png")
            Examples.first_run () w1 ∧
    returns (deleteBaseline Examples.tester "01-home.png") w1 () Examples.first_run.
Proof.
  apply (promote_then_delete_restores Examples.tester Examples.home "01-home.png"
           Examples.first_run {| body := Png Examples.wide; mtime := 1000 |}).
  - vm_compute. reflexivity.
  - vm_compute. reflexivity.
Defined.

(** X12 on the unchanged run: one baseline, its name is listed, and no
    other name is. *)
Lemma getBaselineList_lists_png_witness :
  ∃ names,
    returns (getBaselineList Examples.tester) Examples.unchanged_run names
            Examples.unchanged_run ∧
    "01-home.png" ∈ names ∧
    ∀ n, n ∈ names → ∃ k, is_Some (files Examples.unchanged_run !! k) ∧
                          path_basename k = n.
Proof.
  destruct (getBaselineList_lists_png Examples.tester Examples.unchanged_run)
    as (names & Hret & _ & Hlist & Honly & _).
  exists names. split; [exact Hret|]. split.
  - apply (Hlist eq_refl "baselines/01-home.png").
    + vm_compute. eexists. reflexivity.
    + vm_compute. reflexivity.
    + vm_compute. reflexivity.
  - intros n Hn. destruct (Honly eq_refl) with (n := n) as (k & Hk & _ & Hb).
    + apply (bool_decide_unpack _). vm_compute. exact I.
    + exact Hn.
    + exists k. split; [exact Hk|exact Hb].
Defined.

(** X13 on the changed run: the run, then its report. *)
Lemma report_follows_run_witness :
  ∃ r w1 w2 text,
    returns (compareScreenshots Examples.tester [Examples.home] "p1")
            Examples.changed_run r w1 ∧
    returns (generateVisualRegressionReport Examples.tester r "p1") w1
            "reports/run1/visual-regression-report.md" w2 ∧
    files w2 !! "reports/run1/visual-regression-report.md" =
      Some (Examples.at_time 2000 (Raw (list_byte_of_string text))).
Proof.
  destruct (report_follows_run Examples.tester [Examples.home] "p1" Examples.changed_run)
    as (r & w1 & Hret & Hok & _).
  destruct Hok as (w2 & text & Hrep & Hfile & _).
  - intros code. vm_compute. discriminate.
  - exists r, w1, w2, text. split; [exact Hret|]. split; [exact Hrep|exact Hfile].
Defined.

(** X14 on the corrupt run: the report is written when the run has
    returned. *)
Lemma outcome_rendering_witness :
  ∃ r w1 w2 f,
    returns (compareScreenshots Examples.tester [Examples.home; Examples.login] "p1")
            Examples.corrupt_run r w1 ∧
    returns (generateVisualRegressionReport Examples.tester r "p1") w1
            "reports/run1/visual-regression-report.md" w2 ∧
    files w2 !! "reports/run1/visual-regression-report.md" = Some (Regular f).
Proof.
  destruct (outcome_rendering Examples.tester [Examples.home; Examples.login] "p1"
              Examples.corrupt_run)
    as (r & w1 & rows & Hret & _ & Hok).
  destruct Hok as (w2 & Hrep & Hfile).
  - intros code. vm_compute. discriminate.
  - exists r, w1, w2. eexists. split; [exact Hret|]. split; [exact Hrep|exact Hfile].
Defined.

(** X16 on the diff directory of the clean-up example: the second call
    finds nothing older than 500 milliseconds. *)
Lemma cleanup_twice_witness :
  ∃ w1,
    returns (cleanupOldDiffs Examples.tester (JS.of_Z 500)) Examples.later () w1 ∧
    returns (cleanupOldDiffs Examples.tester (JS.of_Z 500)) w1 () w1.
Proof.
  destruct (cleanup_twice Examples.tester (JS.of_Z 500) Examples.later)
    as (w1 & H1 & _ & H2).
  - split; [vm_compute; reflexivity|].
    apply (bool_decide_unpack _). vm_compute. exact I.
  - exists w1. split; [exact H1|exact H2].
Defined.

(** X18 on the first run, with [home] listed twice. *)
Lemma capture_listed_twice_witness :
  ∃ r w',
    returns (compareScreenshots Examples.tester [Examples.home; Examples.home] "p1")
            Examples.first_run r w' ∧
    Summary.total r = 2%N ∧ Summary.new r = 1%N ∧ Summary.failed r = 1%N.
Proof.
  destruct (capture_listed_twice Examples.tester "p1" Examples.home Examples.first_run
              {| body := Png Examples.wide; mtime := 1000 |})
    as (r & o1 & o2 & Hret & _ & _ & _ & Ht & Hn & Hf & _).
  - vm_compute. reflexivity.
  - vm_compute. reflexivity.
  - exists r. eexists. split; [exact Hret|]. split; [exact Ht|]. split; [exact Hn|exact Hf].
Defined.

(** X19 on the clean-up example: both diff images are younger than seven
    days and the older one is kept. *)
Lemma recent_files_survive_cleanup_witness :
  ∃ w',
    returns (cleanupOldDiffs Examples.tester default_maxAge) Examples.later () w' ∧
    files w' !! "reports/run1/diffs/p0-01-home.png" =
      Some (Examples.at_time 100 (Png Examples.wide)).
Proof.
  apply (recent_files_survive_cleanup Examples.tester Examples.later
           "reports/run1/diffs/p0-01-home.png"
           {| body := Png Examples.wide; mtime := 100 |}).
  - vm_compute. reflexivity.
  - vm_compute. discriminate.
Defined.
